(** * xgo: the wrapper around the CGO cross-compiler container

    A shallow embedding of [xgo.go]: the dependency cache loop of [main],
    the GOPATH mount planner and the assembly of the [docker run] command
    line in [compile], together with the parts of the Go standard library
    they call ([strings], [strconv], [path/filepath] on a Unix host).

    Go strings are byte strings and are modelled as [string]; a Go [int]
    is a [Z]; slices that are only appended to are lists. *)

From Stdlib Require Import String Ascii List ZArith Lia Bool.
From Stdlib Require Import Decimal DecimalString DecimalZ.
From stdpp Require Import gmap strings.
Import ListNotations.
Local Open Scope string_scope.
Local Open Scope list_scope.
#[local] Arguments String.append !s1 s2 : simpl nomatch.

(* ===================================================================== *)
(** ** Package [strings] *)
(* ===================================================================== *)

Module Strings.

(** [strings.HasPrefix(s, prefix)]. *)
Definition HasPrefix (s prefix : string) : bool := String.prefix prefix s.

(** [s[n:]] for [n <= len(s)]. *)
Fixpoint drop (n : nat) (s : string) : string :=
  match n, s with
  | O, _ => s
  | S _, EmptyString => EmptyString
  | S n', String _ s' => drop n' s'
  end.

(** [strings.TrimPrefix(s, prefix)]: [s] without the leading [prefix],
    and [s] itself when it does not start with [prefix]. *)
Definition TrimPrefix (s prefix : string) : string :=
  if HasPrefix s prefix then drop (String.length prefix) s else s.

(** [strings.Split(s, sep)] for a separator of one byte, which is what
    every call in the program passes (a space, a comma, the path list
    separator).  The empty string splits into one empty field. *)
Fixpoint Split (s : string) (sep : ascii) : list string :=
  match s with
  | EmptyString => [EmptyString]
  | String c s' =>
      if Ascii.eqb c sep then EmptyString :: Split s' sep
      else match Split s' sep with
           | [] => [String c EmptyString]
           | field :: fields => String c field :: fields
           end
  end.

(** [strings.Contains(s, substr)], and [bytes.Contains] alike. *)
Fixpoint Contains (s substr : string) : bool :=
  String.prefix substr s ||
  match s with
  | EmptyString => false
  | String _ s' => Contains s' substr
  end.

(** [strings.Join(elems, sep)]. *)
Definition Join (elems : list string) (sep : string) : string :=
  String.concat sep elems.

(** [strings.Replace(s, old, new, -1)]: every non-overlapping instance
    of [old], scanning from the left.  [skip] counts the bytes of an
    instance of [old] that has just been replaced and are still to be
    passed over.  ([old] is never empty in the program.) *)
Fixpoint replace_from (skip : nat) (s old new : string) : string :=
  match s with
  | EmptyString => EmptyString
  | String c s' =>
      match skip with
      | S k => replace_from k s' old new
      | O =>
          if String.prefix old s
          then new +:+ replace_from (String.length old - 1) s' old new
          else String c (replace_from 0 s' old new)
      end
  end.

Definition Replace (s old new : string) : string := replace_from 0 s old new.

(** The UTF-8 encodings of the code points for which [unicode.IsSpace]
    holds: U+0009..U+000D, U+0020, U+0085, U+00A0, U+1680,
    U+2000..U+200A, U+2028, U+2029, U+202F, U+205F, U+3000. *)
Definition utf8 (bytes : list nat) : string :=
  string_of_list_ascii (map ascii_of_nat bytes).

Definition spaces : list string :=
  map utf8
    [ [9]; [10]; [11]; [12]; [13]; [32]; [194; 133]; [194; 160];
      [225; 154; 128];
      [226; 128; 128]; [226; 128; 129]; [226; 128; 130]; [226; 128; 131];
      [226; 128; 132]; [226; 128; 133]; [226; 128; 134]; [226; 128; 135];
      [226; 128; 136]; [226; 128; 137]; [226; 128; 138];
      [226; 128; 168]; [226; 128; 169]; [226; 128; 175];
      [226; 129; 159]; [227; 128; 128] ].

Definition reverse (s : string) : string :=
  string_of_list_ascii (rev (list_ascii_of_string s)).

(** Removes one leading instance of one of [pats], if there is one. *)
Fixpoint strip_one (pats : list string) (s : string) : option string :=
  match pats with
  | [] => None
  | p :: pats' =>
      if String.prefix p s then Some (drop (String.length p) s)
      else strip_one pats' s
  end.

Fixpoint trim_left (fuel : nat) (pats : list string) (s : string) : string :=
  match fuel with
  | O => s
  | S fuel' =>
      match strip_one pats s with
      | Some s' => trim_left fuel' pats s'
      | None => s
      end
  end.

Definition TrimLeftSpace (s : string) : string :=
  trim_left (String.length s) spaces s.

Definition TrimRightSpace (s : string) : string :=
  reverse (trim_left (String.length s) (map reverse spaces) (reverse s)).

(** [strings.TrimSpace(s)]. *)
Definition TrimSpace (s : string) : string :=
  TrimRightSpace (TrimLeftSpace s).

End Strings.

(* ===================================================================== *)
(** ** Package [strconv] *)
(* ===================================================================== *)

Module Strconv.

(** [strconv.Itoa(i)]: decimal, with a minus sign for negative numbers. *)
Definition Itoa (i : Z) : string := NilZero.string_of_int (Z.to_int i).

End Strconv.

(* ===================================================================== *)
(** ** Package [path/filepath] (Unix) *)
(* ===================================================================== *)

Module Filepath.

Definition Separator : ascii := "/"%char.
Definition ListSeparator : ascii := ":"%char.

(** One step of [Clean] over the elements of a path, kept as a stack
    whose head is the last element written.  Empty elements and [.] are
    dropped; [..] removes the element before it when that is a name,
    is dropped at the root, and is kept at the start of a relative
    path. *)
Definition clean_step (rooted : bool) (stack : list string) (elem : string)
  : list string :=
  if String.eqb elem "" then stack
  else if String.eqb elem "." then stack
  else if String.eqb elem ".." then
    match stack with
    | top :: below =>
        if String.eqb top ".." then elem :: stack else below
    | [] => if rooted then [] else [elem]
    end
  else elem :: stack.

Definition clean_elems (rooted : bool) (elems : list string) : list string :=
  fold_left (clean_step rooted) elems [].

(** The path written for a stack of elements. *)
Definition render (rooted : bool) (stack : list string) : string :=
  let body := String.concat "/" (rev stack) in
  if rooted then "/" +:+ body
  else if String.eqb body "" then "." else body.

(** [filepath.Clean(path)]. *)
Definition Clean (path : string) : string :=
  let rooted := String.prefix "/" path in
  render rooted (clean_elems rooted (Strings.Split path Separator)).

(** [filepath.Join(elem...)]: the non-empty elements joined by the
    separator and cleaned; the empty string when there is none. *)
Definition Join (elem : list string) : string :=
  match List.filter (fun e => negb (String.eqb e "")) elem with
  | [] => ""
  | elems => Clean (String.concat "/" elems)
  end.

(** Drops the empty fields at the end of a split path, that is, its
    trailing separators. *)
Fixpoint strip_trailing (fields : list string) : list string :=
  match fields with
  | [] => []
  | f :: fields' =>
      match strip_trailing fields' with
      | [] => if String.eqb f "" then [] else [f]
      | rest => f :: rest
      end
  end.

(** [filepath.Base(path)]: the last element of the path, [.] for the
    empty path and the separator for a path of separators only. *)
Definition Base (path : string) : string :=
  if String.eqb path "" then "."
  else match strip_trailing (Strings.Split path Separator) with
       | [] => "/"
       | fields => List.last fields ""
       end.

End Filepath.

(* ===================================================================== *)
(** ** The host: file system, environment and external commands *)
(* ===================================================================== *)

(** How a call ends: with a value, in [log.Fatalf] (the message is
    printed and the process exits with status 1), or in a run-time panic. *)
Inductive outcome (A : Type) : Type :=
| Ok (a : A)
| Fatal (msg : string)
| Panic.
Arguments Ok {A} a.
Arguments Fatal {A} msg.
Arguments Panic {A}.

Definition bind {A B : Type} (m : outcome A) (k : A -> outcome B) : outcome B :=
  match m with
  | Ok a => k a
  | Fatal msg => Fatal msg
  | Panic => Panic
  end.

Notation "'let*' x := m 'in' k" := (bind m (fun x => k))
  (at level 10, x name, m at level 100, k at level 200).

(** [os.FileInfo], reduced to its mode bits. *)
Record FileInfo : Type := { Mode : Z }.

Definition ModeDir : Z := Z.shiftl 1 31.
Definition ModeSymlink : Z := Z.shiftl 1 27.

Definition IsDir (info : FileInfo) : bool :=
  negb (Z.land (Mode info) ModeDir =? 0)%Z.

(** What [filepath.Walk] sees below a path: the result of [os.Lstat] on
    it ([None] when it fails) and, for a directory, the sorted names that
    reading it returns ([None] when that fails), each with what is seen
    below it. *)
#[warnings="-register-all"] Inductive node : Type :=
| Node (info : option FileInfo) (entries : option (list (string * node))).

(** A response of [http.Get]: the body, and [Some n] when reading the
    body fails after [n] bytes. *)
Record Response : Type := { Body : string; ReadErr : option nat }.

Record Host : Type := {
  GOPATH : string;                         (* os.Getenv("GOPATH") *)
  TempDir : string;                        (* os.TempDir() *)
  Getwd : option string;                   (* os.Getwd() *)
  Stat : string -> option FileInfo;        (* os.Stat, follows links *)
  EvalSymlinks : string -> option string;  (* filepath.EvalSymlinks *)
  Lstree : string -> node;                 (* os.Lstat and directory reads *)
  ImportDir : string -> option string;     (* build.ImportDir(dir, FindOnly).ImportPath *)
  MkdirDenied : string -> bool;            (* os.Mkdir refuses *)
  CreateDenied : string -> bool;           (* os.Create refuses *)
  Get : string -> option Response;         (* http.Get *)
  DockerVersion : bool;                    (* docker version succeeds *)
  DockerImages : option string;            (* output of docker images *)
  DockerPull : string -> bool;             (* docker pull succeeds *)
  DockerRun : list string -> bool          (* docker <args> succeeds *)
}.

(** What is stored at a path of the host's file system. *)
Inductive inode : Type :=
| IDir
| IFile (data : string).

(** What the program does to the world, in order. *)
Inductive event : Type :=
| Stdout (text : string)
| HttpGet (url : string).

(** The part of the world the program changes: the files that [os.Stat]
    finds, and the events so far. *)
Record World : Type := {
  files : gmap string inode;
  trace : list event
}.

Definition say (text : string) (w : World) : World :=
  {| files := files w; trace := trace w ++ [Stdout text] |}.

Definition fetch (url : string) (w : World) : World :=
  {| files := files w; trace := trace w ++ [HttpGet url] |}.

Definition store (path : string) (i : inode) (w : World) : World :=
  {| files := <[path := i]> (files w); trace := trace w |}.

Definition nl : string := String (ascii_of_nat 10) EmptyString.

(** The lines that the dependency cache prints. *)
Definition msg_downloading (url : string) : string :=
  "Downloading new dependency: " +:+ url +:+ "..." +:+ nl.
Definition msg_new (path : string) : string :=
  "New dependency cached: " +:+ path +:+ "." +:+ nl.
Definition msg_cached (path : string) : string :=
  "Dependency already cached: " +:+ path +:+ "." +:+ nl.

(* ===================================================================== *)
(** ** The program *)
(* ===================================================================== *)

(** The three slices that [compile] fills for a local build. *)
Record Mounts : Type := {
  locals : list string;
  mounts : list string;
  paths : list string
}.

Definition no_mounts : Mounts := {| locals := []; mounts := []; paths := [] |}.

Definition len (l : list string) : Z := Z.of_nat (length l).

Definition WalkFunc : Type := string -> option FileInfo -> bool -> Mounts -> outcome Mounts.

(** The loop of a walk over the entries of a directory, in order; [step]
    walks one entry. *)
Fixpoint walk_each {A : Type} (step : string -> A -> Mounts -> outcome Mounts)
    (entries : list (string * A)) (m : Mounts) : outcome Mounts :=
  match entries with
  | [] => Ok m
  | (name, child) :: rest =>
      let* m' := step name child m in
      walk_each step rest m'
  end.

Section Program.

Variable h : Host.

(** [filepath.Abs(path)]. *)
Definition Abs (path : string) : option string :=
  if String.prefix "/" path then Some (Filepath.Clean path)
  else match Getwd h with
       | Some wd => Some (Filepath.Join [wd; path])
       | None => None
       end.

(** Path where to cache external dependencies. *)
Definition depsCache : string := Filepath.Join [TempDir h; "xgo-cache"].

Definition dockerBase : string := "karalabe/xgo-base".
Definition dockerDist : string := "karalabe/xgo-".

(** [filepath.Walk]: [walkFn] is called on the root and on every entry
    below it, directories before their contents, in the order of the
    names; links are not followed.  Where [os.Lstat] fails, on the root
    or on an entry, [walkFn] is called with the path, a nil [FileInfo]
    and the error; where a directory cannot be read, it is called once
    more for the directory, with the error.  The function passed by
    [compile] never returns an error, so that the walk is only cut short
    by a panic. *)
Fixpoint walk (walkFn : WalkFunc) (path : string) (n : node) (m : Mounts)
  : outcome Mounts :=
  match n with
  | Node None _ => walkFn path None true m
  | Node (Some info) entries =>
      let* m1 := walkFn path (Some info) false m in
      if negb (IsDir info) then Ok m1
      else match entries with
           | None => walkFn path (Some info) true m1
           | Some names =>
               walk_each
                 (fun name child => walk walkFn (Filepath.Join [path; name]) child)
                 names m1
           end
  end.

Definition Walk (root : string) (walkFn : WalkFunc) (m : Mounts) : outcome Mounts :=
  walk walkFn root (Lstree h root) m.

(** The function literal that [compile] passes to [filepath.Walk] for
    the source tree [sources].  The incoming [err] is not looked at. *)
Definition visit (sources : string) : WalkFunc :=
  fun path info err m =>
    match info with
    | None => Panic                       (* info.Mode() on a nil interface *)
    | Some info =>
        (* Skip anything that's not a symlink *)
        if (Z.land (Mode info) ModeSymlink =? 0)%Z then Ok m
        else
          (* Resolve the symlink and skip if it's not a folder *)
          match EvalSymlinks h path with
          | None => Ok m
          | Some target =>
              match Stat h target with
              | None => Ok m
              | Some tinfo =>
                  if negb (IsDir tinfo) then Ok m
                  (* Skip if the symlink points within GOPATH *)
                  else if Strings.HasPrefix target sources then Ok m
                  else
                    (* Folder needs explicit mounting *)
                    let locals' := locals m ++ [target] in
                    Ok {| locals := locals';
                          mounts := mounts m ++
                            [Filepath.Join ["/ext-go"; Strconv.Itoa (len locals'); "src";
                                            Strings.TrimPrefix path sources]];
                          paths := paths m ++
                            [Filepath.Join ["/ext-go"; Strconv.Itoa (len locals')]] |}
              end
          end
    end.

(** The body of the loop over the GOPATH entries. *)
Definition mount_gopath (gopath : string) (m : Mounts) : outcome Mounts :=
  let sources := Filepath.Join [gopath; "src"] in
  let* m1 := Walk sources (visit sources) m in
  (* Export the main mount point for this GOPATH entry *)
  let locals' := locals m1 ++ [sources] in
  Ok {| locals := locals';
        mounts := mounts m1 ++ [Filepath.Join ["/ext-go"; Strconv.Itoa (len locals'); "src"]];
        paths := paths m1 ++ [Filepath.Join ["/ext-go"; Strconv.Itoa (len locals')]] |}.

Fixpoint mount_gopaths (gopaths : list string) (m : Mounts) : outcome Mounts :=
  match gopaths with
  | [] => Ok m
  | gopath :: rest => let* m' := mount_gopath gopath m in mount_gopaths rest m'
  end.

(** Iterate over all the local libs and export the mount points. *)
Definition plan_mounts : outcome Mounts :=
  mount_gopaths (Strings.Split (GOPATH h) Filepath.ListSeparator) no_mounts.

(** Whether [compile] takes its argument for a path of the host. *)
Definition is_local (repo : string) : bool :=
  Strings.HasPrefix repo (String Filepath.Separator "") || Strings.HasPrefix repo ".".

(** [fmt.Sprintf("%v", b)]. *)
Definition show_bool (b : bool) : string := if b then "true" else "false".

Fixpoint volumes (locals mounts : list string) : list string :=
  match locals, mounts with
  | l :: locals', m :: mounts' => "-v" :: (l +:+ ":" +:+ m +:+ ":ro") :: volumes locals' mounts'
  | _, _ => []
  end.

(** The folder to store the binaries in: the working directory, or
    the absolute form of [dest] when one is given. *)
Definition output_folder (dest : string) : outcome string :=
  let* folder := match Getwd h with
                 | Some wd => Ok wd
                 | None => Fatal "Failed to retrieve the working directory"
                 end in
  if String.eqb dest "" then Ok folder
  else match Abs dest with
       | Some d => Ok d
       | None => Fatal "Failed to resolve destination path"
       end.

(** If a local build was requested, find the import path and mount all
    GOPATH sources: the package to build and the mounts it needs. *)
Definition locate (repo : string) : outcome (string * Mounts) :=
  if is_local repo then
    (* Resolve the repository import path from the file path *)
    let* path := match Abs repo with
                 | Some p => Ok p
                 | None => Fatal "Failed to locate requested package"
                 end in
    let* _ := match Stat h path with
              | Some stat => if IsDir stat then Ok tt else Fatal "Requested path invalid"
              | None => Fatal "Requested path invalid"
              end in
    let* importPath := match ImportDir h path with
                       | Some p => Ok p
                       | None => Fatal "Failed to resolve import path"
                       end in
    let* m := plan_mounts in
    Ok (importPath, m)
  else Ok (repo, no_mounts).

(** Assemble the cross compilation command. *)
Definition docker_args (folder repo image remote branch pack deps prefix : string)
    (verbose steps race : bool) (targets : list string) (m : Mounts) : list string :=
  let args :=
    [ "run"; "--rm";
      "-v"; folder +:+ ":/build";
      "-v"; depsCache +:+ ":/deps-cache:ro";
      "-e"; "REPO_REMOTE=" +:+ remote;
      "-e"; "REPO_BRANCH=" +:+ branch;
      "-e"; "PACK=" +:+ pack;
      "-e"; "DEPS=" +:+ deps;
      "-e"; "OUT=" +:+ prefix;
      "-e"; "FLAG_V=" +:+ show_bool verbose;
      "-e"; "FLAG_X=" +:+ show_bool steps;
      "-e"; "FLAG_RACE=" +:+ show_bool race;
      "-e"; "TARGETS=" +:+ Strings.Replace (Strings.Join targets " ") "*" "." ] in
  let args := args ++ volumes (locals m) (mounts m) in
  let args := args ++ ["-e"; "EXT_GOPATH=" +:+ Strings.Join (paths m) ":"] in
  args ++ [image; repo].

(** [compile] up to the call of [run]: the arguments of [docker]. *)
Definition compile_args (repo image remote branch pack deps dest prefix : string)
    (verbose steps race : bool) (targets : list string) : outcome (list string) :=
  let* folder := output_folder dest in
  let* rm := locate repo in
  Ok (docker_args folder (fst rm) image remote branch pack deps prefix
        verbose steps race targets (snd rm)).

(** Cross compiles a requested package into the current working
    directory: [true] when [docker] succeeds. *)
Definition compile (repo image remote branch pack deps dest prefix : string)
    (verbose steps race : bool) (targets : list string) (w : World)
  : World * outcome bool :=
  match (let* folder := output_folder dest in
         let* rm := locate repo in
         Ok (folder, rm)) with
  | Ok (folder, (repo, m)) =>
      let w := say ("Cross compiling " +:+ repo +:+ "..." +:+ nl) w in
      (w, Ok (DockerRun h (docker_args folder repo image remote branch pack deps
                             prefix verbose steps race targets m)))
  | Fatal msg => (w, Fatal msg)
  | Panic => (w, Panic)
  end.

(** [os.MkdirAll(path, perm)] on the elements of the cleaned path,
    innermost first: a directory that is there ends the search, a file
    in the way is an error, and what is missing is made after its
    parent. *)
Fixpoint mkdir_all (rooted : bool) (stack : list string) (fs : gmap string inode)
  : option (gmap string inode) :=
  match stack with
  | [] => Some fs
  | _ :: below =>
      let path := Filepath.render rooted stack in
      match fs !! path with
      | Some IDir => Some fs
      | Some (IFile _) => None
      | None =>
          match mkdir_all rooted below fs with
          | Some fs' => if MkdirDenied h path then None else Some (<[path := IDir]> fs')
          | None => None
          end
      end
  end.

Definition MkdirAll (path : string) (w : World) : option World :=
  let rooted := String.prefix "/" path in
  match mkdir_all rooted
          (Filepath.clean_elems rooted (Strings.Split path Filepath.Separator))
          (files w) with
  | Some fs => Some {| files := fs; trace := trace w |}
  | None => None
  end.

(** The file of the cache that holds a dependency. *)
Definition cache_path (url : string) : string :=
  Filepath.Join [depsCache; Filepath.Base url].

(** The body of the loop over the dependencies. *)
Definition cache_dep (dep : string) (w : World) : World * outcome unit :=
  let url := Strings.TrimSpace dep in
  if (0 <? String.length url)%nat then
    let path := cache_path url in
    match files w !! path with
    | None =>                                            (* os.Stat fails *)
        let w := say (msg_downloading url) w in
        if CreateDenied h path then (w, Fatal "Failed to create dependency file")
        else
          let w := store path (IFile "") w in
          let w := fetch url w in
          match Get h url with
          | None => (w, Fatal "Failed to retrieve dependency")
          | Some res =>
              match ReadErr res with
              | Some n =>
                  (store path (IFile (String.substring 0 n (Body res))) w,
                   Fatal "Failed to download dependency")
              | None =>
                  let w := store path (IFile (Body res)) w in
                  (say (msg_new path) w, Ok tt)
              end
          end
    | Some _ =>
        (say (msg_cached path) w, Ok tt)
    end
  else (w, Ok tt).

(** Download all missing dependencies. *)
Fixpoint cache_deps (deps : list string) (w : World) : World * outcome unit :=
  match deps with
  | [] => (w, Ok tt)
  | dep :: rest =>
      match cache_dep dep w with
      | (w', Ok _) => cache_deps rest w'
      | stop => stop
      end
  end.

(** Cache all external dependencies to prevent always hitting the
    internet ([main], from the test of [crossDeps] on). *)
Definition cacheDeps (crossDeps : string) (w : World) : World * outcome unit :=
  if String.eqb crossDeps "" then (w, Ok tt)
  else match MkdirAll depsCache w with
       | None => (w, Fatal "Failed to create dependency cache")
       | Some w' => cache_deps (Strings.Split crossDeps " "%char) w'
       end.

(** Command line arguments. *)
Record Flags : Type := {
  goVersion : string;
  inPackage : string;
  outPrefix : string;
  outFolder : string;
  srcRemote : string;
  srcBranch : string;
  crossDeps : string;
  targets : string;
  dockerImage : string;
  buildVerbose : bool;
  buildSteps : bool;
  buildRace : bool
}.

(** The flags as they are when none is given. *)
Definition default_flags : Flags :=
  {| goVersion := "latest"; inPackage := ""; outPrefix := ""; outFolder := "";
     srcRemote := ""; srcBranch := ""; crossDeps := ""; targets := "*/*";
     dockerImage := ""; buildVerbose := false; buildSteps := false;
     buildRace := false |}.

(** Select the image to use, either official or custom. *)
Definition select_image (f : Flags) : string :=
  if String.eqb (dockerImage f) "" then dockerDist +:+ goVersion f
  else dockerImage f.

(** The arguments of [docker] that [main] arrives at for the package
    [repo], when nothing fails before. *)
Definition main_args (f : Flags) (repo : string) : outcome (list string) :=
  compile_args repo (select_image f) (srcRemote f) (srcBranch f) (inPackage f)
    (crossDeps f) (outFolder f) (outPrefix f)
    (buildVerbose f) (buildSteps f) (buildRace f)
    (Strings.Split (targets f) ","%char).

(** [main], for the positional arguments [args]. *)
Definition main (f : Flags) (args : list string) (w : World) : World * outcome unit :=
  (* Ensure docker is available *)
  let w := say ("Checking docker installation..." +:+ nl) w in
  if negb (DockerVersion h) then (w, Fatal "Failed to check docker installation")
  else
    let w := say nl w in
    (* Validate the command line arguments *)
    match args with
    | [repo] =>
        let image := select_image f in
        (* Check that all required images are available *)
        let w := say ("Checking for required docker image " +:+ image +:+ "... ") w in
        match DockerImages h with
        | None => (w, Fatal "Failed to check docker image availability")
        | Some out =>
            let found := Strings.Contains out image in
            let w := if found then say ("found." +:+ nl) w
                     else say ("Pulling " +:+ image +:+ " from docker registry..." +:+ nl)
                            (say ("not found!" +:+ nl) w) in
            if negb found && negb (DockerPull h image)
            then (w, Fatal "Failed to pull docker image from the registry")
            else
              match cacheDeps (crossDeps f) w with
              | (w, Ok _) =>
                  match compile repo image (srcRemote f) (srcBranch f) (inPackage f)
                          (crossDeps f) (outFolder f) (outPrefix f)
                          (buildVerbose f) (buildSteps f) (buildRace f)
                          (Strings.Split (targets f) ","%char) w with
                  | (w, Ok true) => (w, Ok tt)
                  | (w, Ok false) => (w, Fatal "Failed to cross compile package")
                  | (w, Fatal msg) => (w, Fatal msg)
                  | (w, Panic) => (w, Panic)
                  end
              | stop => stop
              end
        end
    | _ => (w, Fatal "Usage: xgo [options] <go import path>")
    end.

End Program.

(* ===================================================================== *)
(** ** Predicates used to state the properties *)
(* ===================================================================== *)

(** The byte [c] occurs in [s]. *)
Fixpoint occurs (c : ascii) (s : string) : bool :=
  match s with
  | EmptyString => false
  | String c' s' => Ascii.eqb c' c || occurs c s'
  end.

(** A name that a directory can hold: not empty, not [.] or [..], and
    without a separator. *)
Definition name_ok (n : string) : bool :=
  negb (String.eqb n "") && negb (String.eqb n ".") && negb (String.eqb n "..")
  && negb (occurs Filepath.Separator n).

Definition is_dotdot (e : string) : bool := String.eqb e "..".

(** An element that [Clean] may leave in a path: a name, or [..] at the
    start of a relative path. *)
Fixpoint stack_ok (rooted : bool) (stack : list string) : bool :=
  match stack with
  | [] => true
  | e :: below =>
      (name_ok e || (negb rooted && is_dotdot e && forallb is_dotdot below))
      && stack_ok rooted below
  end.

(** Every name listed below a node satisfies [p]. *)
Fixpoint names_all (p : string -> bool) (n : node) : bool :=
  match n with
  | Node _ None => true
  | Node _ (Some entries) =>
      forallb (fun e => p (fst e) && names_all p (snd e)) entries
  end.

(** Every name listed below a node is one that a directory can hold. *)
Definition names_ok (n : node) : bool := names_all name_ok n.

(** The same for every source tree that the planner walks. *)
Definition host_names_ok (h : Host) : bool :=
  forallb (fun gopath => names_ok (Lstree h (Filepath.Join [gopath; "src"])))
    (Strings.Split (GOPATH h) Filepath.ListSeparator).

(** The names [rel] as a path below a directory: each after a separator. *)
Fixpoint rel_path (rel : list string) : string :=
  match rel with
  | [] => ""
  | n :: rel' => "/" +:+ n +:+ rel_path rel'
  end.

(** The sandbox path of the mount with ordinal [k] for the names [rel]
    below the source tree, and the prefix that goes with it. *)
Definition sandbox_path (k : Z) (rel : list string) : string :=
  "/ext-go/" +:+ Strconv.Itoa k +:+ "/src" +:+ rel_path rel.

Definition sandbox_prefix (k : Z) : string := "/ext-go/" +:+ Strconv.Itoa k.

(** The ordinal written in a sandbox path: its second element. *)
Definition ordinal_of (path : string) : string :=
  nth 2 (Strings.Split path Filepath.Separator) "".

(** The mounts are numbered in the order of the slices, from 1: the
    mount at index [i] has the ordinal [i + 1], in its sandbox path (for
    some names [rel] below [src]) and in its prefix. *)
Definition numbered (m : Mounts) : Prop :=
  exists rels : list (list string),
    Forall (Forall (fun n => name_ok n = true)) rels /\
    length (locals m) = length rels /\
    mounts m = imap (fun i rel => sandbox_path (Z.of_nat (S i)) rel) rels /\
    paths m = imap (fun i _ => sandbox_prefix (Z.of_nat (S i))) rels.

(** The part of it that holds whatever the names are: the slices grow
    together and the prefixes are numbered from 1. *)
Definition counted (m : Mounts) : Prop :=
  length (mounts m) = length (locals m) /\
  paths m = imap (fun i _ => sandbox_prefix (Z.of_nat (S i))) (locals m).

(** One more mount: what [compile] appends to its three slices. *)
Definition push (m : Mounts) (host sandbox : string) : Mounts :=
  {| locals := locals m ++ [host];
     mounts := mounts m ++ [sandbox];
     paths := paths m ++ [sandbox_prefix (len (locals m ++ [host]))] |}.

(** [os.Lstat] succeeds on every entry that a walk meets. *)
Fixpoint seen_all (n : node) : bool :=
  match n with
  | Node None _ => false
  | Node (Some info) entries =>
      negb (IsDir info)
      || match entries with
         | None => true
         | Some names => forallb (fun e => seen_all (snd e)) names
         end
  end.

Definition host_seen_all (h : Host) : bool :=
  forallb (fun gopath => seen_all (Lstree h (Filepath.Join [gopath; "src"])))
    (Strings.Split (GOPATH h) Filepath.ListSeparator).

(** The source tree [src] is mounted, under its own ordinal. *)
Definition root_mounted (src : string) (m : Mounts) : Prop :=
  exists i, locals m !! i = Some src /\
            mounts m !! i = Some (sandbox_path (Z.of_nat i + 1) []).

(** The paths that a walk of a clean path meets: names below it. *)
Definition below (rooted : bool) (stack : list string) (path : string) : Prop :=
  exists rel, Forall (fun n => name_ok n = true) rel /\
              path = Filepath.render rooted (rev rel ++ stack).

(** The [HttpGet] events for the cache file [path]. *)
Definition fetches_of (h : Host) (path : string) (evs : list event) : list event :=
  List.filter (fun e => match e with
                   | HttpGet url => String.eqb (cache_path h url) path
                   | Stdout _ => false
                   end) evs.

(** The reports of a cache hit on the cache file [path]. *)
Definition reports_of (path : string) (evs : list event) : list event :=
  List.filter (fun e => match e with
                        | Stdout text => String.eqb text (msg_cached path)
                        | HttpGet _ => false
                        end) evs.

(** [os.Stat] finds the path. *)
Definition cached (w : World) (path : string) : bool :=
  match files w !! path with
  | Some _ => true
  | None => false
  end.

(** A dependency entry that is more than white space. *)
Definition nonblank (dep : string) : bool :=
  negb (String.eqb (Strings.TrimSpace dep) "").

(** The URL of an entry of the dependency list and its cache file. *)
Definition dep_url (dep : string) : string := Strings.TrimSpace dep.
Definition dep_path (h : Host) (dep : string) : string := cache_path h (dep_url dep).

(** What the loop of the cache does with one entry [dep], from the world
    [w]: the events it adds, the files it leaves and how it ends. *)
Inductive dep_step (h : Host) (dep : string) (w : World)
  : list event -> gmap string inode -> outcome unit -> Prop :=
| step_blank :
    nonblank dep = false ->
    dep_step h dep w [] (files w) (Ok tt)
| step_hit :
    nonblank dep = true -> cached w (dep_path h dep) = true ->
    dep_step h dep w [Stdout (msg_cached (dep_path h dep))] (files w) (Ok tt)
| step_create_fails :
    nonblank dep = true -> cached w (dep_path h dep) = false ->
    CreateDenied h (dep_path h dep) = true ->
    dep_step h dep w [Stdout (msg_downloading (dep_url dep))] (files w)
      (Fatal "Failed to create dependency file")
| step_get_fails :
    nonblank dep = true -> cached w (dep_path h dep) = false ->
    CreateDenied h (dep_path h dep) = false -> Get h (dep_url dep) = None ->
    dep_step h dep w [Stdout (msg_downloading (dep_url dep)); HttpGet (dep_url dep)]
      (<[dep_path h dep := IFile ""]> (files w))
      (Fatal "Failed to retrieve dependency")
| step_copy_fails (res : Response) (n : nat) :
    nonblank dep = true -> cached w (dep_path h dep) = false ->
    CreateDenied h (dep_path h dep) = false ->
    Get h (dep_url dep) = Some res -> ReadErr res = Some n ->
    dep_step h dep w [Stdout (msg_downloading (dep_url dep)); HttpGet (dep_url dep)]
      (<[dep_path h dep := IFile (String.substring 0 n (Body res))]>
         (<[dep_path h dep := IFile ""]> (files w)))
      (Fatal "Failed to download dependency")
| step_fetched (res : Response) :
    nonblank dep = true -> cached w (dep_path h dep) = false ->
    CreateDenied h (dep_path h dep) = false ->
    Get h (dep_url dep) = Some res -> ReadErr res = None ->
    dep_step h dep w
      [Stdout (msg_downloading (dep_url dep)); HttpGet (dep_url dep);
       Stdout (msg_new (dep_path h dep))]
      (<[dep_path h dep := IFile (Body res)]>
         (<[dep_path h dep := IFile ""]> (files w)))
      (Ok tt).

(** The entries of a dependency list that are cached in the file [path]. *)
Definition occurrences (h : Host) (path : string) (deps : list string) : nat :=
  length (List.filter (fun dep => nonblank dep && String.eqb (dep_path h dep) path) deps).

(** The target selectors as the specification words them: every [*] of
    every selector replaced by [.], and the selectors joined by spaces. *)
Fixpoint star_to_dot (s : string) : string :=
  match s with
  | EmptyString => EmptyString
  | String c s' => String (if Ascii.eqb c "*" then "."%char else c) (star_to_dot s')
  end.

Definition targets_spec (selectors : list string) : string :=
  String.concat " " (map star_to_dot selectors).

(** The resolved target of a link lies in the source tree: it is the
    tree or a path below it. *)
Definition inside (sources target : string) : Prop :=
  target = sources \/ Strings.HasPrefix target (sources +:+ "/") = true.

(* ===================================================================== *)
(** ** Example hosts *)
(* ===================================================================== *)

Definition dir_info : FileInfo := {| Mode := ModeDir |}.
Definition link_info : FileInfo := {| Mode := ModeSymlink |}.
Definition file_info : FileInfo := {| Mode := 0 |}.

(** A host with the working directory [/home/u/proj], where every
    directory of [dirs] is one for [os.Stat], fetching returns the URL
    as the body, and nothing is refused. *)
Definition example_host (gopath : string) (tree : string -> node)
    (links : string -> option string) (dirs : list string) : Host :=
  {| GOPATH := gopath;
     TempDir := "/tmp";
     Getwd := Some "/home/u/proj";
     Stat := fun p => if existsb (String.eqb p) dirs then Some dir_info else None;
     EvalSymlinks := links;
     Lstree := tree;
     ImportDir := fun p =>
       Some (if Strings.HasPrefix p "/home/u/go/src/"
             then Strings.TrimPrefix p "/home/u/go/src/" else ".");
     MkdirDenied := fun _ => false;
     CreateDenied := fun _ => false;
     Get := fun url => Some {| Body := url; ReadErr := None |};
     DockerVersion := true;
     DockerImages := Some "karalabe/xgo-latest";
     DockerPull := fun _ => true;
     DockerRun := fun _ => true |}.

(** One workspace, [/home/u/go], with a package and a link [ext] to the
    directory [/opt/ext] outside of it. *)
Definition workspace_tree (root : string) : node :=
  if String.eqb root "/home/u/go/src" then
    Node (Some dir_info)
      (Some [("github.com",
              Node (Some dir_info)
                (Some [("u",
                        Node (Some dir_info)
                          (Some [("ext", Node (Some link_info) None);
                                 ("mylib",
                                  Node (Some dir_info)
                                    (Some [("a.go", Node (Some file_info) None)]))]))]))])
  else Node None None.

Definition workspace_links (path : string) : option string :=
  if String.eqb path "/home/u/go/src/github.com/u/ext" then Some "/opt/ext" else None.

Definition workspace_host : Host :=
  example_host "/home/u/go" workspace_tree workspace_links
    ["/opt/ext"; "/home/u/go/src/github.com/u/mylib"].

(** The same workspace, followed in GOPATH by a root without [src]. *)
Definition missing_src_host : Host :=
  example_host "/home/u/go:/nonexistent" workspace_tree workspace_links
    ["/opt/ext"; "/home/u/go/src/github.com/u/mylib"].

(** No GOPATH, and a working directory with [src/ext], a link to the
    directory [/opt/ext]. *)
Definition cwd_tree (root : string) : node :=
  if String.eqb root "src" then
    Node (Some dir_info) (Some [("ext", Node (Some link_info) None)])
  else Node None None.

Definition cwd_links (path : string) : option string :=
  if String.eqb path "src/ext" then Some "/opt/ext" else None.

Definition no_gopath_host : Host :=
  example_host "" cwd_tree cwd_links ["/opt/ext"; "/home/u/proj"].

(** No GOPATH, and a working directory with an empty [src]. *)
Definition plain_tree (root : string) : node :=
  if String.eqb root "src" then Node (Some dir_info) (Some []) else Node None None.

Definition plain_host : Host :=
  example_host "" plain_tree (fun _ => None) ["/home/u/proj"].

(** A host like [h], where [http.Get] answers as [get] says. *)
Definition with_get (h : Host) (get : string -> option Response) : Host :=
  {| GOPATH := GOPATH h; TempDir := TempDir h; Getwd := Getwd h; Stat := Stat h;
     EvalSymlinks := EvalSymlinks h; Lstree := Lstree h; ImportDir := ImportDir h;
     MkdirDenied := MkdirDenied h; CreateDenied := CreateDenied h; Get := get;
     DockerVersion := DockerVersion h; DockerImages := DockerImages h;
     DockerPull := DockerPull h; DockerRun := DockerRun h |}.

(** No network, and a network that breaks after three bytes. *)
Definition offline_host : Host := with_get workspace_host (fun _ => None).
Definition flaky_host : Host :=
  with_get workspace_host (fun url => Some {| Body := url; ReadErr := Some 3 |}).

(** A world without files, where nothing has happened. *)
Definition empty_world : World := {| files := ∅; trace := [] |}.

(** What the planner arrives at on [workspace_host]. *)
Definition workspace_mounts : Mounts :=
  {| locals := ["/opt/ext"; "/home/u/go/src"];
     mounts := ["/ext-go/1/src/github.com/u/ext"; "/ext-go/2/src"];
     paths := ["/ext-go/1"; "/ext-go/2"] |}.

(* ===================================================================== *)
(** ** Further notions for the properties of the rest of the program *)
(* ===================================================================== *)

(** [f] applied to every byte of a string. *)
Fixpoint map_chars (f : ascii -> ascii) (s : string) : string :=
  match s with
  | EmptyString => EmptyString
  | String c s' => String (f c) (map_chars f s')
  end.

(** What becomes of a byte of the [-targets] flag in [TARGETS]. *)
Definition selector_char (c : ascii) : ascii :=
  if Ascii.eqb c "," then " "%char
  else if Ascii.eqb c "*" then "."%char
  else c.

(** The white space of ASCII: tab, line feed, vertical tab, form feed,
    carriage return and space. *)
Definition is_ascii_space (c : ascii) : bool :=
  existsb (Ascii.eqb c) (map ascii_of_nat [9; 10; 11; 12; 13; 32]).

Fixpoint all_chars (p : ascii -> bool) (s : string) : bool :=
  match s with
  | EmptyString => true
  | String c s' => p c && all_chars p s'
  end.

(** The printable bytes of ASCII other than the space. *)
Definition is_graphic (c : ascii) : bool :=
  (32 <? nat_of_ascii c)%nat && (nat_of_ascii c <? 127)%nat.

(** The pattern [p] can only match a string that starts with [c]. *)
Definition starts (c : ascii) (p : string) : bool :=
  match p with
  | EmptyString => true
  | String c' _ => Ascii.eqb c' c
  end.

(** The first of the patterns that can match a string that starts with
    [c] is the byte [c] alone. *)
Fixpoint single_at (c : ascii) (pats : list string) : bool :=
  match pats with
  | [] => false
  | p :: pats' => String.eqb p (String c "") || (negb (starts c p) && single_at c pats')
  end.

(** A host like [h], where [docker pull] answers as [pull] says. *)
Definition with_pull (h : Host) (pull : string -> bool) : Host :=
  {| GOPATH := GOPATH h; TempDir := TempDir h; Getwd := Getwd h; Stat := Stat h;
     EvalSymlinks := EvalSymlinks h; Lstree := Lstree h; ImportDir := ImportDir h;
     MkdirDenied := MkdirDenied h; CreateDenied := CreateDenied h; Get := Get h;
     DockerVersion := DockerVersion h; DockerImages := DockerImages h;
     DockerPull := pull; DockerRun := DockerRun h |}.

(** A host like [h], with another file system, environment and resolver
    but the same working directory and temporary directory. *)
Definition with_files (h : Host) (gopath : string) (stat : string -> option FileInfo)
    (links : string -> option string) (tree : string -> node)
    (import : string -> option string) : Host :=
  {| GOPATH := gopath; TempDir := TempDir h; Getwd := Getwd h; Stat := stat;
     EvalSymlinks := links; Lstree := tree; ImportDir := import;
     MkdirDenied := MkdirDenied h; CreateDenied := CreateDenied h; Get := Get h;
     DockerVersion := DockerVersion h; DockerImages := DockerImages h;
     DockerPull := DockerPull h; DockerRun := DockerRun h |}.

(** The flags [f], with [v] for the Go release. *)
Definition with_go (f : Flags) (v : string) : Flags :=
  {| goVersion := v; inPackage := inPackage f; outPrefix := outPrefix f;
     outFolder := outFolder f; srcRemote := srcRemote f; srcBranch := srcBranch f;
     crossDeps := crossDeps f; targets := targets f; dockerImage := dockerImage f;
     buildVerbose := buildVerbose f; buildSteps := buildSteps f;
     buildRace := buildRace f |}.

(** The flags as they are when only [-image] is given. *)
Definition pinned_flags : Flags :=
  {| goVersion := "latest"; inPackage := ""; outPrefix := ""; outFolder := "";
     srcRemote := ""; srcBranch := ""; crossDeps := ""; targets := "*/*";
     dockerImage := "karalabe/xgo-latest"; buildVerbose := false; buildSteps := false;
     buildRace := false |}.




(** Every request in a list of events comes right after the line that
    announces the download of its URL. *)
Fixpoint announced (evs : list event) : bool :=
  match evs with
  | [] => true
  | HttpGet _ :: _ => false
  | Stdout text :: rest =>
      match rest with
      | HttpGet url :: rest' => String.eqb text (msg_downloading url) && announced rest'
      | _ => announced rest
      end
  end.

(** A world where the cache holds one file from an earlier run. *)
Definition stocked_world : World :=
  {| files := {[ "/tmp/xgo-cache/a.tgz" := IFile "old" ]}; trace := [] |}.


(* ===================================================================== *)
(** ** The library functions on examples *)
(* ===================================================================== *)

Example Split_fields_example :
  Strings.Split "a b  c" " " = ["a"; "b"; ""; "c"] /\ Strings.Split "" ":" = [""].
Proof. split; reflexivity. Qed.

Example TrimSpace_example :
  Strings.TrimSpace (" " +:+ nl +:+ "http://x/a.tgz" +:+ Strings.utf8 [9; 194; 160])
  = "http://x/a.tgz".
Proof. reflexivity. Qed.

Example Replace_example :
  Strings.Replace "*/* linux/arm*" "*" "." = "./. linux/arm."
  /\ Strings.Replace "aaaaa" "aa" "b" = "bba".
Proof. split; reflexivity. Qed.

Example Itoa_example :
  Strconv.Itoa 0 = "0" /\ Strconv.Itoa 12 = "12" /\ Strconv.Itoa (-5) = "-5".
Proof. repeat split; reflexivity. Qed.

Example Clean_example :
  map Filepath.Clean [""; "/"; "a//b/"; "/../a"; "../../a/.."; "a/../.."; "/a/./b/../c"]
  = ["."; "/"; "a/b"; "/a"; "../.."; ".."; "/a/c"].
Proof. reflexivity. Qed.

Example Join_example :
  Filepath.Join [""; "src"] = "src"
  /\ Filepath.Join ["/home/u/go/"; "src"] = "/home/u/go/src"
  /\ Filepath.Join ["/ext-go"; "3"; "src"; "/github.com/u/ext"]
     = "/ext-go/3/src/github.com/u/ext"
  /\ Filepath.Join ["/ext-go"; "3"; "src"; ""] = "/ext-go/3/src".
Proof. repeat split; reflexivity. Qed.

Example Base_example :
  map Filepath.Base [""; "/"; "a/b/"; "http://x/a.tgz"; "a.tgz"]
  = ["."; "/"; "b"; "a.tgz"; "a.tgz"].
Proof. reflexivity. Qed.

(* ===================================================================== *)
(** ** Strings *)
(* ===================================================================== *)

Section StringFacts.

Lemma append_nil_r (s : string) : s +:+ "" = s.
Proof. induction s as [|c s IH]; simpl; [reflexivity | now rewrite IH]. Qed.

Lemma append_assoc (a b c : string) : (a +:+ b) +:+ c = a +:+ (b +:+ c).
Proof. induction a as [|x a IH]; simpl; [reflexivity | now rewrite IH]. Qed.

Lemma length_append (a b : string) :
  String.length (a +:+ b) = (String.length a + String.length b)%nat.
Proof. induction a as [|x a IH]; simpl; [reflexivity | now rewrite IH]. Qed.

Lemma prefix_append (a b : string) : String.prefix a (a +:+ b) = true.
Proof.
  induction a as [|x a IH]; simpl.
  - now destruct b.
  - destruct (ascii_dec x x) as [_|Hne]; [exact IH | now elim Hne].
Qed.

Lemma prefix_nil (s : string) : String.prefix "" s = true.
Proof. now destruct s. Qed.

Lemma prefix_char (c d : ascii) (s : string) :
  String.prefix (String c "") (String d s) = Ascii.eqb c d.
Proof.
  simpl. rewrite prefix_nil.
  destruct (ascii_dec c d) as [-> | Hne].
  - now rewrite Ascii.eqb_refl.
  - symmetry. now apply Ascii.eqb_neq.
Qed.

Lemma drop_append (a b : string) : Strings.drop (String.length a) (a +:+ b) = b.
Proof. induction a as [|x a IH]; simpl; [now destruct b | exact IH]. Qed.

Lemma TrimPrefix_append (a b : string) : Strings.TrimPrefix (a +:+ b) a = b.
Proof.
  unfold Strings.TrimPrefix, Strings.HasPrefix.
  now rewrite prefix_append, drop_append.
Qed.

Lemma append_single (c : ascii) (s : string) : String c "" +:+ s = String c s.
Proof. reflexivity. Qed.

Lemma concat_cons (sep a b : string) (l : list string) :
  String.concat sep (a :: b :: l) = a +:+ sep +:+ String.concat sep (b :: l).
Proof. reflexivity. Qed.

Lemma concat_two (sep a b : string) : String.concat sep [a; b] = a +:+ sep +:+ b.
Proof. reflexivity. Qed.

Lemma prefix_refl (s : string) : String.prefix s s = true.
Proof.
  induction s as [|c s IH]; [reflexivity |]. simpl.
  destruct (ascii_dec c c) as [_ | Hne]; [exact IH | now elim Hne].
Qed.

Lemma prefix_append_l (a b t : string) :
  String.prefix (a +:+ b) t = true -> String.prefix a t = true.
Proof.
  revert t. induction a as [|c a IH]; intros t H; [apply prefix_nil |].
  destruct t as [|d t]; simpl in *; [discriminate |].
  destruct (ascii_dec c d); [now apply IH | discriminate].
Qed.

Lemma Split_not_nil (s : string) (sep : ascii) : Strings.Split s sep <> [].
Proof.
  destruct s as [|c s]; simpl; [discriminate |].
  destruct (Ascii.eqb c sep); [discriminate |].
  destruct (Strings.Split s sep); discriminate.
Qed.

(** Splitting a string without separator gives the string. *)
Lemma Split_none (s : string) (sep : ascii) :
  occurs sep s = false -> Strings.Split s sep = [s].
Proof.
  induction s as [|c s IH]; simpl; [reflexivity |].
  intros H. apply orb_false_iff in H as [Hc Hs].
  rewrite Hc, (IH Hs). reflexivity.
Qed.

(** Splitting at a separator splits the list of fields. *)
Lemma Split_append (a b : string) (sep : ascii) :
  Strings.Split (a +:+ String sep b) sep = Strings.Split a sep ++ Strings.Split b sep.
Proof.
  induction a as [|c a IH]; simpl.
  - now rewrite Ascii.eqb_refl.
  - destruct (Ascii.eqb c sep); [now rewrite IH |].
    rewrite IH.
    pose proof (Split_not_nil a sep) as Hne.
    destruct (Strings.Split a sep); [now elim Hne | reflexivity].
Qed.

Lemma Split_fields (s : string) (sep : ascii) :
  Forall (fun f => occurs sep f = false) (Strings.Split s sep).
Proof.
  induction s as [|c s IH]; simpl.
  - now constructor.
  - destruct (Ascii.eqb c sep) eqn:Hc.
    + now constructor.
    + destruct (Strings.Split s sep) as [|f fs]; constructor.
      * simpl. now rewrite Hc.
      * constructor.
      * inversion IH; subst. simpl. now rewrite Hc.
      * now inversion IH.
Qed.

(** Joining fields without separator and splitting again gives the
    fields back. *)
Lemma Split_concat (fields : list string) (sep : ascii) :
  fields <> [] ->
  Forall (fun f => occurs sep f = false) fields ->
  Strings.Split (String.concat (String sep "") fields) sep = fields.
Proof.
  induction fields as [|f fs IH]; [congruence |].
  intros _ Hall. inversion Hall as [|? ? Hf Hfs]; subst.
  destruct fs as [|g fs].
  - simpl. now apply Split_none.
  - rewrite concat_cons, append_single, Split_append, (Split_none f sep Hf), IH;
      [reflexivity | discriminate | exact Hfs].
Qed.

Lemma concat_snoc (sep : string) (l : list string) (x : string) :
  l <> [] -> String.concat sep (l ++ [x]) = String.concat sep l +:+ sep +:+ x.
Proof.
  induction l as [|a l IH]; [congruence |]. intros _.
  destruct l as [|b l].
  - reflexivity.
  - change ((a :: b :: l) ++ [x]) with (a :: b :: (l ++ [x])).
    rewrite concat_cons.
    change (b :: (l ++ [x])) with ((b :: l) ++ [x]).
    rewrite IH by discriminate.
    now rewrite concat_cons, !append_assoc.
Qed.

End StringFacts.

(* ===================================================================== *)
(** ** Clean paths *)
(* ===================================================================== *)

Section CleanFacts.

Lemma name_ok_spec (n : string) :
  name_ok n = true ->
  n <> "" /\ n <> "." /\ n <> ".." /\ occurs Filepath.Separator n = false.
Proof.
  unfold name_ok. rewrite !andb_true_iff, !negb_true_iff.
  intros [[[H1 H2] H3] H4].
  repeat split; try (apply String.eqb_neq; assumption); assumption.
Qed.

Lemma clean_step_name (rooted : bool) (stack : list string) (n : string) :
  name_ok n = true -> Filepath.clean_step rooted stack n = n :: stack.
Proof.
  intros H. apply name_ok_spec in H as (H1 & H2 & H3 & _).
  unfold Filepath.clean_step.
  apply String.eqb_neq in H1, H2, H3. now rewrite H1, H2, H3.
Qed.

Lemma stack_ok_unfold (rooted : bool) (e : string) (below : list string) :
  stack_ok rooted (e :: below)
  = (name_ok e || (negb rooted && is_dotdot e && forallb is_dotdot below))
    && stack_ok rooted below.
Proof. reflexivity. Qed.

(** What [stack_ok] says of one element. *)
Lemma stack_ok_cons (rooted : bool) (e : string) (below : list string) :
  stack_ok rooted (e :: below) = true ->
  (name_ok e = true \/
   (rooted = false /\ e = ".." /\ forallb is_dotdot below = true))
  /\ stack_ok rooted below = true.
Proof.
  rewrite stack_ok_unfold.
  rewrite andb_true_iff, orb_true_iff, !andb_true_iff, negb_true_iff.
  intros [[H | [[Hr He] Hb]] Hs]; split; auto.
  right. apply String.eqb_eq in He. auto.
Qed.

Lemma stack_ok_fields (rooted : bool) (stack : list string) :
  stack_ok rooted stack = true ->
  Forall (fun e => e <> "" /\ occurs Filepath.Separator e = false) stack.
Proof.
  induction stack as [|e below IH]; intros H; constructor.
  - apply stack_ok_cons in H as [[H | (_ & -> & _)] _].
    + apply name_ok_spec in H. tauto.
    + split; [discriminate | reflexivity].
  - apply IH. now apply stack_ok_cons in H.
Qed.

Lemma stack_ok_not_empty (rooted : bool) (stack : list string) :
  stack_ok rooted stack = true -> Forall (fun e => e <> "") (rev stack).
Proof.
  intros H. apply Forall_rev.
  refine (List.Forall_impl _ _ (stack_ok_fields _ _ H)). simpl. tauto.
Qed.

Lemma stack_ok_no_sep (rooted : bool) (stack : list string) :
  stack_ok rooted stack = true ->
  Forall (fun e => occurs Filepath.Separator e = false) (rev stack).
Proof.
  intros H. apply Forall_rev.
  refine (List.Forall_impl _ _ (stack_ok_fields _ _ H)). simpl. tauto.
Qed.

Lemma rev_not_nil (l : list string) : l <> [] -> rev l <> [].
Proof.
  intros Hne H. apply (f_equal (@rev string)) in H.
  rewrite rev_involutive in H. now apply Hne.
Qed.

(** One step of [Clean] keeps the stack well formed. *)
Lemma clean_step_ok (rooted : bool) (stack : list string) (e : string) :
  occurs Filepath.Separator e = false ->
  stack_ok rooted stack = true ->
  stack_ok rooted (Filepath.clean_step rooted stack e) = true.
Proof.
  intros He Hs. unfold Filepath.clean_step.
  destruct (String.eqb_spec e ""); [assumption |].
  destruct (String.eqb_spec e "."); [assumption |].
  destruct (String.eqb_spec e "..") as [-> | Hdd].
  - destruct stack as [|top below].
    + now destruct rooted.
    + destruct (String.eqb_spec top "..") as [-> | Htop].
      * pose proof Hs as Hs0.
        apply stack_ok_cons in Hs as [[Hn | (Hr & _ & Hb)] Hs]; [discriminate |].
        rewrite stack_ok_unfold, Hs0, andb_true_r, Hr.
        change (forallb is_dotdot (".." :: below)) with (forallb is_dotdot below).
        now rewrite Hb.
      * now apply stack_ok_cons in Hs.
  - rewrite stack_ok_unfold, Hs, andb_true_r. apply orb_true_iff. left.
    unfold name_ok. rewrite He.
    apply String.eqb_neq in n, n0, Hdd. now rewrite n, n0, Hdd.
Qed.

Lemma clean_fold_ok (rooted : bool) (elems stack : list string) :
  Forall (fun e => occurs Filepath.Separator e = false) elems ->
  stack_ok rooted stack = true ->
  stack_ok rooted (fold_left (Filepath.clean_step rooted) elems stack) = true.
Proof.
  revert stack. induction elems as [|e elems IH]; intros stack Hall Hs; [assumption |].
  inversion Hall; subst. simpl. apply IH; [assumption |].
  now apply clean_step_ok.
Qed.

Lemma clean_elems_ok (rooted : bool) (path : string) :
  stack_ok rooted (Filepath.clean_elems rooted (Strings.Split path Filepath.Separator)) = true.
Proof. apply clean_fold_ok; [apply Split_fields | reflexivity]. Qed.

(** Cleaning the elements of a well-formed stack gives the stack. *)
Lemma clean_fold_rev (rooted : bool) (stack : list string) :
  stack_ok rooted stack = true ->
  fold_left (Filepath.clean_step rooted) (rev stack) [] = stack.
Proof.
  induction stack as [|e below IH]; intros H; [reflexivity |].
  apply stack_ok_cons in H as [He Hs].
  simpl. rewrite fold_left_app. simpl. rewrite (IH Hs).
  destruct He as [He | (Hr & -> & Hb)].
  - now apply clean_step_name.
  - subst rooted. destruct below as [|top below]; [reflexivity |].
    change (forallb is_dotdot (top :: below))
      with (is_dotdot top && forallb is_dotdot below) in Hb.
    apply andb_true_iff in Hb as [Htop _].
    apply String.eqb_eq in Htop. subst top. reflexivity.
Qed.

Lemma concat_not_empty (sep : string) (l : list string) :
  l <> [] -> Forall (fun e => e <> "") l -> String.concat sep l <> "".
Proof.
  destruct l as [|a l]; [congruence |]. intros _ H.
  inversion H as [|? ? Ha _]; subst.
  destruct a as [|c a]; [congruence |].
  destruct l; simpl; discriminate.
Qed.

Lemma body_not_empty (rooted : bool) (stack : list string) :
  stack_ok rooted stack = true -> stack <> [] ->
  String.concat "/" (rev stack) <> "".
Proof.
  intros Hs Hne. apply concat_not_empty.
  - now apply rev_not_nil.
  - now apply stack_ok_not_empty with rooted.
Qed.

(** Writing one more element after a path that is not empty. *)
Lemma render_cons (rooted : bool) (stack : list string) (n : string) :
  stack_ok rooted (n :: stack) = true -> stack <> [] ->
  Filepath.render rooted (n :: stack) = Filepath.render rooted stack +:+ "/" +:+ n.
Proof.
  intros Hs Hne.
  assert (Hs' : stack_ok rooted stack = true) by now apply stack_ok_cons in Hs.
  pose proof (body_not_empty rooted stack Hs' Hne) as Hb.
  pose proof (body_not_empty rooted (n :: stack) Hs ltac:(discriminate)) as Hb'.
  unfold Filepath.render. simpl rev in *.
  pose proof (rev_not_nil stack Hne) as Hrev.
  rewrite concat_snoc in * by assumption.
  destruct rooted.
  - now rewrite !append_assoc.
  - apply String.eqb_neq in Hb, Hb'. now rewrite Hb, Hb'.
Qed.

(** A rendered path starts with a separator exactly when it is rooted. *)
Lemma render_rooted (rooted : bool) (stack : list string) (rest : string) :
  stack_ok rooted stack = true -> stack <> [] ->
  String.prefix "/" (Filepath.render rooted stack +:+ rest) = rooted.
Proof.
  intros Hs Hne. unfold Filepath.render.
  destruct rooted; [apply prefix_char |].
  pose proof (body_not_empty false stack Hs Hne) as Hb.
  apply String.eqb_neq in Hb. rewrite Hb.
  pose proof (stack_ok_not_empty _ _ Hs) as Hall.
  pose proof (stack_ok_no_sep _ _ Hs) as Hall'.
  pose proof (rev_not_nil stack Hne) as Hrev.
  destruct (rev stack) as [|a l] eqn:Hr; [now elim Hrev |].
  inversion Hall as [|? ? Ha _]; subst.
  inversion Hall' as [|? ? Hsl _]; subst.
  - destruct a as [|c a]; [congruence |].
    simpl in Hsl. apply orb_false_iff in Hsl as [Hc _].
    assert (Hpre : forall s, String.prefix "/" (String c s) = false).
    { intros s. rewrite prefix_char, Ascii.eqb_sym. exact Hc. }
    destruct l; simpl String.concat; simpl String.append; apply Hpre.
Qed.

(** The fields of a rendered path are its elements, after an empty
    field for the root. *)
Lemma Split_render (rooted : bool) (stack : list string) :
  stack_ok rooted stack = true -> stack <> [] ->
  Strings.Split (Filepath.render rooted stack) Filepath.Separator
  = (if rooted then [""] else []) ++ rev stack.
Proof.
  intros Hs Hne.
  assert (Hsplit : Strings.Split (String.concat "/" (rev stack)) Filepath.Separator
                   = rev stack).
  { apply (Split_concat (rev stack) "/").
    - now apply rev_not_nil.
    - now apply stack_ok_no_sep with rooted. }
  unfold Filepath.render. destruct rooted.
  - change ("/" +:+ ?s) with (String "/" s).
    change (String "/" (String.concat "/" (rev stack)))
      with ("" +:+ String "/" (String.concat "/" (rev stack))).
    unfold Filepath.Separator in *. rewrite Split_append, Hsplit. reflexivity.
  - pose proof (body_not_empty false stack Hs Hne) as Hb.
    apply String.eqb_neq in Hb. rewrite Hb. exact Hsplit.
Qed.

(** [Clean] of a clean path followed by a separator and more: the
    elements that follow are cleaned on top of those of the path. *)
Lemma Clean_extend (rooted : bool) (stack : list string) (x : string) :
  stack_ok rooted stack = true -> stack <> [] ->
  Filepath.Clean (Filepath.render rooted stack +:+ "/" +:+ x)
  = Filepath.render rooted
      (fold_left (Filepath.clean_step rooted) (Strings.Split x Filepath.Separator) stack).
Proof.
  intros Hs Hne. unfold Filepath.Clean.
  rewrite (render_rooted rooted stack _ Hs Hne).
  unfold Filepath.clean_elems. rewrite append_single.
  unfold Filepath.Separator. rewrite Split_append.
  fold Filepath.Separator. rewrite (Split_render rooted stack Hs Hne).
  rewrite !fold_left_app.
  replace (fold_left (Filepath.clean_step rooted) (if rooted then [""] else []) [])
    with (@nil string) by now destruct rooted.
  now rewrite (clean_fold_rev rooted stack Hs).
Qed.

(** A clean path is left as it is. *)
Lemma Clean_render (rooted : bool) (stack : list string) :
  stack_ok rooted stack = true -> stack <> [] ->
  Filepath.Clean (Filepath.render rooted stack) = Filepath.render rooted stack.
Proof.
  intros Hs Hne. unfold Filepath.Clean.
  pose proof (render_rooted rooted stack "" Hs Hne) as Hp.
  rewrite append_nil_r in Hp. rewrite Hp.
  unfold Filepath.clean_elems.
  rewrite (Split_render rooted stack Hs Hne), fold_left_app.
  replace (fold_left (Filepath.clean_step rooted) (if rooted then [""] else []) [])
    with (@nil string) by now destruct rooted.
  now rewrite (clean_fold_rev rooted stack Hs).
Qed.

End CleanFacts.

(* ===================================================================== *)
(** ** Ordinals and sandbox paths *)
(* ===================================================================== *)

Section SandboxFacts.

Lemma digits_free (c : ascii) (d : uint) :
  (c = "/" \/ c = ".")%char -> occurs c (NilEmpty.string_of_uint d) = false.
Proof.
  intros [-> | ->]; induction d; simpl; auto.
Qed.

Lemma digits_not_empty (d : uint) : NilZero.string_of_uint d <> "".
Proof. destruct d; discriminate. Qed.

Lemma Itoa_free (c : ascii) (k : Z) :
  (c = "/" \/ c = ".")%char -> occurs c (Strconv.Itoa k) = false.
Proof.
  intros Hc. unfold Strconv.Itoa.
  assert (Hu : forall d, occurs c (NilZero.string_of_uint d) = false).
  { intros d. destruct d; try apply (digits_free c _ Hc).
    destruct Hc as [-> | ->]; reflexivity. }
  destruct (Z.to_int k) as [d | d]; simpl.
  - apply Hu.
  - rewrite Hu. destruct Hc as [-> | ->]; reflexivity.
Qed.

Lemma Itoa_not_empty (k : Z) : Strconv.Itoa k <> "".
Proof.
  unfold Strconv.Itoa. destruct (Z.to_int k); simpl;
    [apply digits_not_empty | discriminate].
Qed.

(** The decimal form of a number is a name. *)
Lemma Itoa_name_ok (k : Z) : name_ok (Strconv.Itoa k) = true.
Proof.
  pose proof (Itoa_not_empty k) as Hne.
  pose proof (Itoa_free "." k (or_intror eq_refl)) as Hdot.
  pose proof (Itoa_free "/" k (or_introl eq_refl)) as Hsep.
  unfold name_ok, Filepath.Separator. rewrite Hsep.
  destruct (String.eqb_spec (Strconv.Itoa k) ""); [contradiction |].
  destruct (String.eqb_spec (Strconv.Itoa k) ".") as [E | _];
    [rewrite E in Hdot; discriminate |].
  destruct (String.eqb_spec (Strconv.Itoa k) "..") as [E | _];
    [rewrite E in Hdot; discriminate |].
  reflexivity.
Qed.

(** Different numbers have different decimal forms. *)
Lemma Itoa_inj (a b : Z) : Strconv.Itoa a = Strconv.Itoa b -> a = b.
Proof.
  unfold Strconv.Itoa. intros H.
  assert (Hnn : forall z, Z.to_int z <> Pos Nil /\ Z.to_int z <> Neg Nil).
  { intros [|p|p]; simpl; split; try discriminate;
      intros E; injection E as E; now apply DecimalPos.Unsigned.to_uint_nonnil in E. }
  apply DecimalZ.to_int_inj.
  apply (f_equal NilZero.int_of_string) in H.
  rewrite !NilZero.isi in H by apply Hnn. congruence.
Qed.

Lemma rel_path_snoc (rel : list string) (n : string) :
  rel_path (rel ++ [n]) = rel_path rel +:+ "/" +:+ n.
Proof.
  induction rel as [|a rel IH]; simpl.
  - now rewrite append_nil_r.
  - now rewrite IH, !append_assoc.
Qed.

Lemma stack_ok_names (rooted : bool) (rel stack : list string) :
  Forall (fun n => name_ok n = true) rel ->
  stack_ok rooted stack = true ->
  stack_ok rooted (rev rel ++ stack) = true.
Proof.
  intros Hrel Hs. apply Forall_rev in Hrel.
  induction Hrel as [|n l Hn _ IH]; [assumption |].
  change ((n :: l) ++ stack) with (n :: (l ++ stack)).
  now rewrite stack_ok_unfold, Hn, IH.
Qed.

(** A path with names below it is the path followed by the names. *)
Lemma render_names (rooted : bool) (stack rel : list string) :
  Forall (fun n => name_ok n = true) rel ->
  stack_ok rooted stack = true -> stack <> [] ->
  Filepath.render rooted (rev rel ++ stack)
  = Filepath.render rooted stack +:+ rel_path rel.
Proof.
  intros Hrel Hs Hne. induction rel as [|n rel IH] using rev_ind.
  - simpl. now rewrite append_nil_r.
  - apply Forall_app in Hrel as [Hrel Hn].
    rewrite rev_app_distr. simpl rev. simpl app.
    rewrite render_cons.
    + rewrite (IH Hrel), rel_path_snoc, !append_assoc. reflexivity.
    + rewrite stack_ok_unfold, (stack_ok_names _ _ _ Hrel Hs).
      inversion Hn; subst. now rewrite H1.
    + destruct (rev rel); [assumption | discriminate].
Qed.

Lemma fold_names (rooted : bool) (rel stack : list string) :
  Forall (fun n => name_ok n = true) rel ->
  fold_left (Filepath.clean_step rooted) rel stack = rev rel ++ stack.
Proof.
  revert stack. induction rel as [|n rel IH]; intros stack H; [reflexivity |].
  inversion H; subst. simpl.
  rewrite clean_step_name by assumption.
  rewrite IH by assumption. now rewrite <- app_assoc.
Qed.

Lemma Split_name_rel (n : string) (rel : list string) :
  name_ok n = true -> Forall (fun n => name_ok n = true) rel ->
  Strings.Split (n +:+ rel_path rel) Filepath.Separator = n :: rel.
Proof.
  intros Hn Hrel. revert n Hn. induction Hrel as [|a rel Ha _ IH]; intros n Hn.
  - simpl. rewrite append_nil_r. apply Split_none.
    now apply name_ok_spec in Hn.
  - simpl rel_path.
    unfold Filepath.Separator. rewrite Split_append.
    fold Filepath.Separator. rewrite (IH a Ha).
    rewrite Split_none; [reflexivity |]. now apply name_ok_spec in Hn.
Qed.

Lemma Split_rel_path (rel : list string) :
  rel <> [] -> Forall (fun n => name_ok n = true) rel ->
  Strings.Split (rel_path rel) Filepath.Separator = "" :: rel.
Proof.
  destruct rel as [|n rel]; [congruence |]. intros _ H.
  inversion H; subst. simpl rel_path.
  change (String "/" (n +:+ rel_path rel)) with ("" +:+ String "/" (n +:+ rel_path rel)).
  unfold Filepath.Separator. rewrite Split_append.
  fold Filepath.Separator. now rewrite Split_name_rel.
Qed.

Lemma render_not_empty (rooted : bool) (stack : list string) :
  Filepath.render rooted stack <> "".
Proof.
  unfold Filepath.render. destruct rooted; [discriminate |].
  destruct (String.eqb_spec (String.concat "/" (rev stack)) ""); [discriminate | assumption].
Qed.

(** [Join] of a clean path and one name. *)
Lemma Join_name (rooted : bool) (stack : list string) (n : string) :
  name_ok n = true ->
  stack_ok rooted stack = true -> stack <> [] ->
  Filepath.Join [Filepath.render rooted stack; n]
  = Filepath.render rooted (n :: stack).
Proof.
  intros Hn Hs Hne. unfold Filepath.Join. simpl List.filter.
  pose proof (render_not_empty rooted stack) as Hr.
  apply String.eqb_neq in Hr. rewrite Hr. simpl negb. cbv iota.
  pose proof Hn as Hn'. apply name_ok_spec in Hn' as (Hne' & _ & _ & Hsep).
  apply String.eqb_neq in Hne'. rewrite Hne'. simpl negb. cbv iota.
  rewrite concat_two, Clean_extend, Split_none by assumption.
  simpl fold_left. now rewrite clean_step_name.
Qed.

(** The source tree of a GOPATH entry is a clean path that ends in [src]. *)
Lemma sources_clean (gopath : string) :
  exists rooted stack,
    Filepath.Join [gopath; "src"] = Filepath.render rooted stack
    /\ stack_ok rooted stack = true /\ stack <> [].
Proof.
  destruct gopath as [|c g].
  - exists false, ["src"]. repeat split; discriminate.
  - set (gp := String c g).
    exists (String.prefix "/" gp),
      ("src" :: Filepath.clean_elems (String.prefix "/" gp)
                   (Strings.Split gp Filepath.Separator)).
    split; [| split; [| discriminate]].
    + unfold Filepath.Join. change (List.filter _ [gp; "src"]) with [gp; "src"].
      cbv iota. rewrite concat_two.
      unfold Filepath.Clean. rewrite append_single.
      assert (Hp : String.prefix "/" (gp +:+ String "/" "src") = String.prefix "/" gp).
      { unfold gp. simpl String.append. now rewrite !prefix_char. }
      rewrite Hp. unfold Filepath.clean_elems, Filepath.Separator.
      rewrite Split_append, fold_left_app. reflexivity.
    + rewrite stack_ok_unfold. now rewrite clean_elems_ok.
Qed.

(** The sandbox path as a clean path. *)
Lemma sandbox_path_render (k : Z) (rel : list string) :
  Forall (fun n => name_ok n = true) rel ->
  sandbox_path k rel
  = Filepath.render true (rev rel ++ ["src"; Strconv.Itoa k; "ext-go"]).
Proof.
  intros Hrel. rewrite render_names; [| assumption | | discriminate].
  - unfold sandbox_path, Filepath.render. simpl rev. simpl String.concat.
    repeat (progress simpl String.append || rewrite append_assoc); reflexivity.
  - rewrite !stack_ok_unfold, Itoa_name_ok. reflexivity.
Qed.

Lemma sandbox_stack_ok (k : Z) :
  stack_ok true ["src"; Strconv.Itoa k; "ext-go"] = true.
Proof. rewrite !stack_ok_unfold, Itoa_name_ok. reflexivity. Qed.

Lemma sandbox_root_render (k : Z) :
  Filepath.render true ["src"; Strconv.Itoa k; "ext-go"]
  = "/ext-go" +:+ "/" +:+ Strconv.Itoa k +:+ "/" +:+ "src".
Proof.
  unfold Filepath.render. simpl rev. simpl String.concat.
  repeat (progress simpl String.append || rewrite append_assoc); reflexivity.
Qed.

Lemma Join_not_empty (elem : list string) :
  elem <> [] -> Forall (fun e => e <> "") elem ->
  Filepath.Join elem = Filepath.Clean (String.concat "/" elem).
Proof.
  intros Hne Hall. unfold Filepath.Join.
  assert (Hf : List.filter (fun e => negb (e =? "")%string) elem = elem).
  { clear Hne. induction Hall as [|e l He _ IH]; [reflexivity |].
    simpl. apply String.eqb_neq in He. rewrite He. simpl. now rewrite IH. }
  rewrite Hf. destruct elem; [congruence | reflexivity].
Qed.

Lemma Join_empty_last (elem : list string) :
  Filepath.Join (elem ++ [""]) = Filepath.Join elem.
Proof.
  unfold Filepath.Join. rewrite List.filter_app. simpl List.filter.
  now rewrite app_nil_r.
Qed.

(** The sandbox path that [compile] computes for a source tree. *)
Lemma Join_sandbox_root (k : Z) :
  Filepath.Join ["/ext-go"; Strconv.Itoa k; "src"] = sandbox_path k [].
Proof.
  pose proof (Itoa_not_empty k) as Hk.
  rewrite Join_not_empty; [| discriminate | repeat constructor; (discriminate || assumption)].
  rewrite !concat_cons. simpl (String.concat "/" ["src"]).
  rewrite <- sandbox_root_render, Clean_render; [| apply sandbox_stack_ok | discriminate].
  now rewrite sandbox_path_render by constructor.
Qed.

(** The sandbox path that [compile] computes for the names [rel]
    below a source tree. *)
Lemma Join_sandbox (k : Z) (rel : list string) :
  Forall (fun n => name_ok n = true) rel ->
  Filepath.Join ["/ext-go"; Strconv.Itoa k; "src"; rel_path rel] = sandbox_path k rel.
Proof.
  intros Hrel. pose proof (Itoa_not_empty k) as Hk.
  destruct rel as [|n rel].
  - change ["/ext-go"; Strconv.Itoa k; "src"; rel_path []]
      with (["/ext-go"; Strconv.Itoa k; "src"] ++ [""]).
    rewrite Join_empty_last. apply Join_sandbox_root.
  - remember (n :: rel) as names eqn:Hnames.
    assert (Hp : rel_path names <> "") by (subst names; discriminate).
    rewrite Join_not_empty;
      [| discriminate | repeat constructor; (discriminate || assumption)].
    rewrite !concat_cons. simpl (String.concat "/" [rel_path names]).
    replace ("/ext-go" +:+ "/" +:+ Strconv.Itoa k +:+ "/" +:+ "src" +:+ "/" +:+ rel_path names)
      with (Filepath.render true ["src"; Strconv.Itoa k; "ext-go"] +:+ "/" +:+ rel_path names)
      by (rewrite sandbox_root_render;
      repeat (progress simpl String.append || rewrite append_assoc); reflexivity).
    rewrite Clean_extend; [| apply sandbox_stack_ok | discriminate].
    rewrite Split_rel_path by (subst names; assumption || discriminate).
    simpl fold_left. rewrite fold_names by assumption.
    now rewrite sandbox_path_render.
Qed.

Lemma Join_sandbox_prefix (k : Z) :
  Filepath.Join ["/ext-go"; Strconv.Itoa k] = sandbox_prefix k.
Proof.
  assert (Hs : stack_ok true [Strconv.Itoa k; "ext-go"] = true)
    by (rewrite !stack_ok_unfold, Itoa_name_ok; reflexivity).
  change "/ext-go" with (Filepath.render true ["ext-go"]).
  rewrite Join_name; [| apply Itoa_name_ok | reflexivity | discriminate].
  rewrite render_cons; [reflexivity | exact Hs | discriminate].
Qed.

(** The ordinal can be read back from a sandbox path. *)
Lemma ordinal_of_sandbox (k : Z) (rel : list string) :
  Forall (fun n => name_ok n = true) rel ->
  ordinal_of (sandbox_path k rel) = Strconv.Itoa k.
Proof.
  intros Hrel. unfold ordinal_of.
  rewrite sandbox_path_render by assumption.
  rewrite Split_render.
  - rewrite rev_app_distr. reflexivity.
  - apply stack_ok_names; [assumption | apply sandbox_stack_ok].
  - destruct (rev rel); discriminate.
Qed.

End SandboxFacts.

(* ===================================================================== *)
(** ** The walk *)
(* ===================================================================== *)

Section WalkFacts.

(** Induction on what is below a path. *)
Lemma node_induction (P : node -> Prop) :
  (forall info, P (Node info None)) ->
  (forall info entries,
      Forall (fun e => P (snd e)) entries -> P (Node info (Some entries))) ->
  forall n, P n.
Proof.
  intros Hleaf Hdir. fix IH 1. intros [info [entries|]].
  - apply Hdir. induction entries as [|[name child] rest IHrest].
    + constructor.
    + constructor; [apply IH | exact IHrest].
  - apply Hleaf.
Qed.

(** What holds before a walk holds after it, when every call of the
    function keeps it, on every path [Q] that the walk can reach. *)
Lemma walk_preserves (walkFn : WalkFunc) (ok : string -> bool)
    (Q : string -> Prop) (P : Mounts -> Prop) :
  (forall path info err m m',
      Q path -> P m -> walkFn path info err m = Ok m' -> P m') ->
  (forall path name, Q path -> ok name = true -> Q (Filepath.Join [path; name])) ->
  forall n path m m',
    names_all ok n = true -> Q path -> P m ->
    walk walkFn path n m = Ok m' -> P m'.
Proof.
  intros Hfn Hjoin n. induction n as [info | info entries IH] using node_induction;
    intros path m m' Hnames HQ HP Hwalk.
  - destruct info as [info|]; simpl in Hwalk.
    + destruct (walkFn path (Some info) false m) as [m1| |] eqn:E1; try discriminate.
      simpl in Hwalk. pose proof (Hfn _ _ _ _ _ HQ HP E1) as HP1.
      destruct (negb (IsDir info)).
      * now injection Hwalk as <-.
      * eapply Hfn; eauto.
    + eapply Hfn; eauto.
  - destruct info as [info|]; simpl in Hwalk; [| eapply Hfn; eauto].
    destruct (walkFn path (Some info) false m) as [m1| |] eqn:E1; try discriminate.
    simpl in Hwalk. pose proof (Hfn _ _ _ _ _ HQ HP E1) as HP1.
    destruct (negb (IsDir info)); [now injection Hwalk as <- |].
    clear E1 HP. simpl in Hnames. revert m1 HP1 Hwalk.
    induction entries as [|[name child] rest IHrest]; intros m1 HP1 Hwalk.
    + now injection Hwalk as <-.
    + simpl in Hwalk, Hnames.
      apply andb_true_iff in Hnames as [Hhead Hrest].
      apply andb_true_iff in Hhead as [Hname Hchild].
      inversion IH as [|? ? IHchild IHothers]; subst.
      destruct (walk walkFn (Filepath.Join [path; name]) child m1) as [m2| |] eqn:E2;
        try discriminate.
      simpl in Hwalk.
      apply (IHrest IHothers Hrest m2); [| exact Hwalk].
      exact (IHchild (Filepath.Join [path; name]) m1 m2 Hchild
               (Hjoin _ _ HQ Hname) HP1 E2).
Qed.

Lemma names_all_true (n : node) : names_all (fun _ => true) n = true.
Proof.
  induction n as [info | info entries IH] using node_induction; [reflexivity |].
  simpl. induction IH as [|[name child] rest Hc _ IHrest]; [reflexivity |].
  simpl in *. now rewrite Hc, IHrest.
Qed.

Lemma len_snoc (l : list string) (x : string) :
  len (l ++ [x]) = Z.of_nat (S (length l)).
Proof. unfold len. rewrite length_app. simpl. f_equal. lia. Qed.

Lemma counted_push (m : Mounts) (host sandbox : string) :
  counted m -> counted (push m host sandbox).
Proof.
  intros [Hlen Hpaths]. split; simpl.
  - rewrite !length_app, Hlen. reflexivity.
  - rewrite imap_app, Hpaths, len_snoc. simpl. now rewrite Nat.add_0_r.
Qed.

Lemma numbered_push (m : Mounts) (host : string) (rel : list string) :
  Forall (fun n => name_ok n = true) rel ->
  numbered m ->
  numbered (push m host (sandbox_path (len (locals m ++ [host])) rel)).
Proof.
  intros Hrel (rels & Hall & Hlen & Hmounts & Hpaths).
  exists (rels ++ [rel]). repeat split; simpl.
  - apply Forall_app. split; [assumption | now constructor].
  - rewrite !length_app, Hlen. reflexivity.
  - rewrite imap_app, Hmounts, len_snoc, Hlen. simpl. now rewrite Nat.add_0_r.
  - rewrite imap_app, Hpaths, len_snoc, Hlen. simpl. now rewrite Nat.add_0_r.
Qed.

Variable h : Host.

(** What a call of the function of [compile] returns: the mounts as
    they were, or with one more. *)
Lemma visit_cases (sources path : string) (info : FileInfo) (err : bool) (m : Mounts) :
  visit h sources path (Some info) err m = Ok m \/
  exists target,
    EvalSymlinks h path = Some target /\
    visit h sources path (Some info) err m
    = Ok (push m target
            (Filepath.Join ["/ext-go"; Strconv.Itoa (len (locals m ++ [target])); "src";
                            Strings.TrimPrefix path sources])).
Proof.
  unfold visit.
  destruct (Z.land (Mode info) ModeSymlink =? 0)%Z; [now left |].
  destruct (EvalSymlinks h path) as [target|]; [| now left].
  destruct (Stat h target) as [tinfo|]; [| now left].
  destruct (negb (IsDir tinfo)); [now left |].
  destruct (Strings.HasPrefix target sources); [now left |].
  right. exists target. split; [reflexivity |].
  unfold push. now rewrite Join_sandbox_prefix.
Qed.

Lemma visit_counted (sources path : string) (info : option FileInfo) (err : bool)
    (m m' : Mounts) :
  counted m -> visit h sources path info err m = Ok m' -> counted m'.
Proof.
  intros Hc Hv. destruct info as [info|]; [| discriminate].
  destruct (visit_cases sources path info err m) as [E | (target & _ & E)];
    rewrite E in Hv; injection Hv as <-; [assumption |].
  now apply counted_push.
Qed.

Lemma below_join (rooted : bool) (stack : list string) (path name : string) :
  stack_ok rooted stack = true -> stack <> [] ->
  below rooted stack path -> name_ok name = true ->
  below rooted stack (Filepath.Join [path; name]).
Proof.
  intros Hs Hne (rel & Hrel & ->) Hname.
  exists (rel ++ [name]). split.
  - apply Forall_app. split; [assumption | now constructor].
  - rewrite Join_name; [| assumption | now apply stack_ok_names |].
    + now rewrite rev_app_distr.
    + destruct (rev rel); [assumption | discriminate].
Qed.

Lemma visit_numbered (rooted : bool) (stack : list string) (path : string)
    (info : option FileInfo) (err : bool) (m m' : Mounts) :
  stack_ok rooted stack = true -> stack <> [] ->
  below rooted stack path -> numbered m ->
  visit h (Filepath.render rooted stack) path info err m = Ok m' -> numbered m'.
Proof.
  intros Hs Hne (rel & Hrel & ->) Hn Hv.
  destruct info as [info|]; [| discriminate].
  destruct (visit_cases (Filepath.render rooted stack)
              (Filepath.render rooted (rev rel ++ stack)) info err m)
    as [E | (target & _ & E)];
    rewrite E in Hv; injection Hv as <-; [assumption |].
  rewrite render_names, TrimPrefix_append, Join_sandbox by assumption.
  now apply numbered_push.
Qed.

Lemma mount_gopath_counted (gopath : string) (m m' : Mounts) :
  counted m -> mount_gopath h gopath m = Ok m' -> counted m'.
Proof.
  intros Hc. unfold mount_gopath, Walk.
  set (sources := Filepath.Join [gopath; "src"]).
  destruct (walk (visit h sources) sources (Lstree h sources) m) as [m1| |] eqn:E;
    try discriminate.
  simpl. intros Hm. injection Hm as <-.
  rewrite Join_sandbox_prefix. apply (counted_push m1 sources).
  refine (walk_preserves (visit h sources) (fun _ => true) (fun _ => True) counted
            _ _ (Lstree h sources) sources m m1 (names_all_true _) I Hc E).
  - intros. eapply visit_counted; eauto.
  - trivial.
Qed.

Lemma mount_gopath_numbered (gopath : string) (m m' : Mounts) :
  names_ok (Lstree h (Filepath.Join [gopath; "src"])) = true ->
  numbered m -> mount_gopath h gopath m = Ok m' -> numbered m'.
Proof.
  intros Hnames Hn. unfold mount_gopath, Walk.
  destruct (sources_clean gopath) as (rooted & stack & Hsrc & Hs & Hne).
  rewrite Hsrc in *.
  destruct (walk _ _ _ m) as [m1| |] eqn:E; try discriminate.
  simpl. intros Hm. injection Hm as <-.
  rewrite Join_sandbox_prefix, Join_sandbox_root.
  apply (numbered_push m1 _ []); [constructor |].
  refine (walk_preserves (visit h (Filepath.render rooted stack)) name_ok
            (below rooted stack) numbered _ _
            (Lstree h (Filepath.render rooted stack))
            (Filepath.render rooted stack) m m1 Hnames _ Hn E).
  - intros. eapply visit_numbered; eauto.
  - intros. now apply below_join.
  - exists []. split; [constructor | reflexivity].
Qed.

Lemma mount_gopaths_counted (gopaths : list string) (m m' : Mounts) :
  counted m -> mount_gopaths h gopaths m = Ok m' -> counted m'.
Proof.
  revert m. induction gopaths as [|g rest IH]; intros m Hc Hm; simpl in Hm.
  - now injection Hm as <-.
  - destruct (mount_gopath h g m) as [m1| |] eqn:E; try discriminate.
    simpl in Hm. eapply IH; [| exact Hm]. eapply mount_gopath_counted; eauto.
Qed.

Lemma mount_gopaths_numbered (gopaths : list string) (m m' : Mounts) :
  forallb (fun g => names_ok (Lstree h (Filepath.Join [g; "src"]))) gopaths = true ->
  numbered m -> mount_gopaths h gopaths m = Ok m' -> numbered m'.
Proof.
  revert m. induction gopaths as [|g rest IH]; intros m Hok Hn Hm; simpl in Hm.
  - now injection Hm as <-.
  - simpl in Hok. apply andb_true_iff in Hok as [Hg Hrest].
    destruct (mount_gopath h g m) as [m1| |] eqn:E; try discriminate.
    simpl in Hm. eapply IH; [exact Hrest | | exact Hm].
    eapply mount_gopath_numbered; eauto.
Qed.

Lemma visit_found (sources path : string) (info : FileInfo) (err : bool) (m : Mounts) :
  exists m', visit h sources path (Some info) err m = Ok m'.
Proof.
  destruct (visit_cases sources path info err m) as [E | (target & _ & E)];
    rewrite E; eauto.
Qed.

(** A walk with the function of [compile] completes when [os.Lstat]
    succeeds on every entry it meets, and panics otherwise. *)
Lemma walk_outcome (sources : string) (n : node) (path : string) (m : Mounts) :
  if seen_all n then exists m', walk (visit h sources) path n m = Ok m'
  else walk (visit h sources) path n m = Panic.
Proof.
  revert path m. induction n as [info | info entries IH] using node_induction;
    intros path m.
  - destruct info as [info|]; [| reflexivity].
    cbn [walk seen_all]. rewrite orb_true_r.
    destruct (visit_found sources path info false m) as [m1 ->]. cbn [bind].
    destruct (negb (IsDir info)); [eauto | apply visit_found].
  - destruct info as [info|]; [| reflexivity].
    cbn [walk seen_all].
    destruct (visit_found sources path info false m) as [m1 ->]. cbn [bind].
    destruct (negb (IsDir info)); cbn [orb]; [eauto |].
    clear m. revert m1.
    induction entries as [|[name child] rest IHrest]; intros m1;
      cbn [walk_each forallb snd]; [eauto |].
    inversion IH as [|? ? IHchild IHothers]; subst. cbn [snd] in IHchild.
    specialize (IHchild (Filepath.Join [path; name]) m1).
    destruct (seen_all child); cbn [andb].
    + destruct IHchild as [m2 ->]. cbn [bind]. now apply IHrest.
    + now rewrite IHchild.
Qed.

Lemma mount_gopath_outcome (gopath : string) (m : Mounts) :
  if seen_all (Lstree h (Filepath.Join [gopath; "src"]))
  then exists m', mount_gopath h gopath m = Ok m'
  else mount_gopath h gopath m = Panic.
Proof.
  unfold mount_gopath, Walk.
  pose proof (walk_outcome (Filepath.Join [gopath; "src"])
                (Lstree h (Filepath.Join [gopath; "src"]))
                (Filepath.Join [gopath; "src"]) m) as Hw.
  destruct (seen_all _).
  - destruct Hw as [m1 ->]. simpl. eauto.
  - now rewrite Hw.
Qed.

Lemma mount_gopaths_outcome (gopaths : list string) (m : Mounts) :
  if forallb (fun g => seen_all (Lstree h (Filepath.Join [g; "src"]))) gopaths
  then exists m', mount_gopaths h gopaths m = Ok m'
  else mount_gopaths h gopaths m = Panic.
Proof.
  revert m. induction gopaths as [|g rest IH]; intros m; simpl; [eauto |].
  pose proof (mount_gopath_outcome g m) as Hg.
  destruct (seen_all _); simpl.
  - destruct Hg as [m1 ->]. simpl. apply IH.
  - now rewrite Hg.
Qed.

Lemma root_mounted_push (src : string) (m : Mounts) (host sandbox : string) :
  root_mounted src m -> root_mounted src (push m host sandbox).
Proof.
  intros (i & Hl & Hm). exists i. simpl.
  split; now apply lookup_app_l_Some.
Qed.

Lemma visit_root_mounted (src sources path : string) (info : option FileInfo)
    (err : bool) (m m' : Mounts) :
  root_mounted src m -> visit h sources path info err m = Ok m' -> root_mounted src m'.
Proof.
  intros Hr Hv. destruct info as [info|]; [| discriminate].
  destruct (visit_cases sources path info err m) as [E | (target & _ & E)];
    rewrite E in Hv; injection Hv as <-; [assumption |].
  now apply root_mounted_push.
Qed.

Lemma mount_gopath_split (gopath : string) (m m' : Mounts) :
  mount_gopath h gopath m = Ok m' ->
  exists m1,
    walk (visit h (Filepath.Join [gopath; "src"])) (Filepath.Join [gopath; "src"])
      (Lstree h (Filepath.Join [gopath; "src"])) m = Ok m1
    /\ m' = push m1 (Filepath.Join [gopath; "src"])
              (sandbox_path (len (locals m1 ++ [Filepath.Join [gopath; "src"]])) []).
Proof.
  unfold mount_gopath, Walk.
  destruct (walk _ _ _ m) as [m1| |]; try discriminate.
  simpl. intros Hm. injection Hm as <-. exists m1. split; [reflexivity |].
  unfold push. now rewrite Join_sandbox_prefix, Join_sandbox_root.
Qed.

Lemma mount_gopath_keeps_root (src gopath : string) (m m' : Mounts) :
  root_mounted src m -> mount_gopath h gopath m = Ok m' -> root_mounted src m'.
Proof.
  intros Hr Hm. apply mount_gopath_split in Hm as (m1 & Hwalk & ->).
  apply root_mounted_push.
  refine (walk_preserves _ (fun _ => true) (fun _ => True) (root_mounted src)
            _ _ _ _ m m1 (names_all_true _) I Hr Hwalk).
  - intros. eapply visit_root_mounted; eauto.
  - trivial.
Qed.

Lemma mount_gopath_root (gopath : string) (m m' : Mounts) :
  counted m -> mount_gopath h gopath m = Ok m' ->
  root_mounted (Filepath.Join [gopath; "src"]) m'.
Proof.
  intros Hc Hm. apply mount_gopath_split in Hm as (m1 & Hwalk & ->).
  assert (Hc1 : counted m1).
  { refine (walk_preserves _ (fun _ => true) (fun _ => True) counted
              _ _ _ _ m m1 (names_all_true _) I Hc Hwalk).
    - intros. eapply visit_counted; eauto.
    - trivial. }
  destruct Hc1 as [Hlen _].
  exists (length (locals m1)). simpl. split.
  - now rewrite list_lookup_middle.
  - rewrite list_lookup_middle by (symmetry; exact Hlen).
    rewrite len_snoc. do 2 f_equal. lia.
Qed.

Lemma mount_gopaths_roots (gopaths : list string) (m m' : Mounts) :
  counted m -> mount_gopaths h gopaths m = Ok m' ->
  forall g, In g gopaths -> root_mounted (Filepath.Join [g; "src"]) m'.
Proof.
  assert (Hkeep : forall src gs m m',
             root_mounted src m -> mount_gopaths h gs m = Ok m' -> root_mounted src m').
  { intros src gs. induction gs as [|g0 gs IH]; intros m0 m0' Hr Hm; simpl in Hm.
    - now injection Hm as <-.
    - destruct (mount_gopath h g0 m0) as [m1| |] eqn:E; try discriminate.
      simpl in Hm. eapply IH; [| exact Hm]. eapply mount_gopath_keeps_root; eauto. }
  revert m. induction gopaths as [|g0 rest IH]; intros m Hc Hm g Hin; [contradiction |].
  simpl in Hm. destruct (mount_gopath h g0 m) as [m1| |] eqn:E; try discriminate.
  simpl in Hm. destruct Hin as [<- | Hin].
  - eapply Hkeep; [| exact Hm]. eapply mount_gopath_root; eauto.
  - eapply IH; [| exact Hm | exact Hin]. eapply mount_gopath_counted; eauto.
Qed.

Lemma counted_none : counted no_mounts.
Proof. split; reflexivity. Qed.

Lemma numbered_none : numbered no_mounts.
Proof. exists []. repeat split; constructor. Qed.

End WalkFacts.

(* ===================================================================== *)
(** ** The mount planner *)
(* ===================================================================== *)

Section PlannerFacts.

Variable h : Host.

Lemma plan_counted (m : Mounts) : plan_mounts h = Ok m -> counted m.
Proof. apply mount_gopaths_counted, counted_none. Qed.

Lemma plan_numbered (m : Mounts) :
  host_names_ok h = true -> plan_mounts h = Ok m -> numbered m.
Proof. intros Hok. now apply mount_gopaths_numbered; [| apply numbered_none]. Qed.

(** The planner completes when [os.Lstat] succeeds on every entry of
    the source trees, and panics otherwise. *)
Lemma plan_outcome :
  if host_seen_all h then exists m, plan_mounts h = Ok m else plan_mounts h = Panic.
Proof. apply mount_gopaths_outcome. Qed.

Lemma plan_roots (m : Mounts) (gopath : string) :
  plan_mounts h = Ok m ->
  In gopath (Strings.Split (GOPATH h) Filepath.ListSeparator) ->
  root_mounted (Filepath.Join [gopath; "src"]) m.
Proof.
  intros Hplan. now apply (mount_gopaths_roots h _ no_mounts m counted_none Hplan).
Qed.

Lemma counted_lookup (m : Mounts) (i : nat) (p : string) :
  counted m -> paths m !! i = Some p -> p = sandbox_prefix (Z.of_nat i + 1).
Proof.
  intros [_ Hp] Hi. rewrite Hp in Hi.
  apply list_lookup_imap_Some in Hi as (_ & _ & ->).
  f_equal. lia.
Qed.

Lemma sandbox_prefix_inj (a b : Z) : sandbox_prefix a = sandbox_prefix b -> a = b.
Proof.
  unfold sandbox_prefix. intros H.
  apply Itoa_inj. now apply (String.app_inj "/ext-go/") in H.
Qed.

Lemma counted_NoDup (m : Mounts) : counted m -> NoDup (paths m).
Proof.
  intros Hc. apply NoDup_alt. intros i j p Hi Hj.
  apply (counted_lookup m i p Hc) in Hi. apply (counted_lookup m j p Hc) in Hj.
  subst p. apply sandbox_prefix_inj in Hj. lia.
Qed.

Lemma numbered_lookup (m : Mounts) (i : nat) (s : string) :
  numbered m -> mounts m !! i = Some s ->
  ordinal_of s = Strconv.Itoa (Z.of_nat i + 1)
  /\ exists rel, Forall (fun n => name_ok n = true) rel
                 /\ s = sandbox_path (Z.of_nat i + 1) rel.
Proof.
  intros (rels & Hall & _ & Hm & _) Hi. rewrite Hm in Hi.
  apply list_lookup_imap_Some in Hi as (rel & Hrel & ->).
  assert (Hok : Forall (fun n => name_ok n = true) rel).
  { rewrite Forall_forall in Hall. apply Hall.
    apply list_elem_of_lookup. eauto. }
  replace (Z.of_nat (S i)) with (Z.of_nat i + 1)%Z by lia.
  split; [now apply ordinal_of_sandbox | eauto].
Qed.

Lemma numbered_NoDup (m : Mounts) : numbered m -> NoDup (mounts m).
Proof.
  intros Hn. apply NoDup_alt. intros i j s Hi Hj.
  apply (numbered_lookup m i s Hn) in Hi as [Hi _].
  apply (numbered_lookup m j s Hn) in Hj as [Hj _].
  rewrite Hi in Hj. apply Itoa_inj in Hj. lia.
Qed.

End PlannerFacts.

(* ===================================================================== *)
(** ** Properties of the mount planner *)
(* ===================================================================== *)

Lemma inside_prefix (sources target : string) :
  inside sources target -> Strings.HasPrefix target sources = true.
Proof.
  unfold Strings.HasPrefix. intros [-> | H].
  - apply prefix_refl.
  - now apply prefix_append_l in H.
Qed.

(** C4.  Within one run the ordinal of the sandbox paths starts at 1 and
    grows by one with every mount, across all the GOPATH entries and
    for the links and the source trees alike: the mount at index [i] of
    the slices has the ordinal [i + 1] in its prefix [/ext-go/<k>] and,
    when the names in the source trees are names that a directory can
    hold, in its sandbox path [/ext-go/<k>/src...]; the source tree of
    every GOPATH entry is one of these mounts.  No ordinal is used
    twice, so that the prefixes and the sandbox paths are all different. *)
Theorem ordinals_shared_and_unique (h : Host) (m : Mounts) :
  plan_mounts h = Ok m ->
  (length (mounts m) = length (locals m) /\
   length (paths m) = length (locals m) /\
   (forall i p, paths m !! i = Some p -> p = sandbox_prefix (Z.of_nat i + 1)) /\
   (forall p, paths m !! 0%nat = Some p -> p = "/ext-go/1") /\
   NoDup (paths m) /\
   (forall gopath,
       In gopath (Strings.Split (GOPATH h) Filepath.ListSeparator) ->
       exists i, locals m !! i = Some (Filepath.Join [gopath; "src"]) /\
                 mounts m !! i = Some (sandbox_path (Z.of_nat i + 1) []))) /\
  (host_names_ok h = true ->
   (forall i s, mounts m !! i = Some s ->
      ordinal_of s = Strconv.Itoa (Z.of_nat i + 1) /\
      exists rel, s = sandbox_path (Z.of_nat i + 1) rel) /\
   NoDup (mounts m)).
Proof.
  intros Hplan. pose proof (plan_counted h m Hplan) as Hc. split.
  - pose proof Hc as [Hlen Hp].
    split; [exact Hlen |].
    split; [rewrite Hp; apply length_imap |].
    split; [intros i p; now apply counted_lookup |].
    split; [intros p Hp0; now apply (counted_lookup m 0 p Hc) in Hp0 |].
    split; [now apply counted_NoDup |].
    intros gopath Hin. exact (plan_roots h m gopath Hplan Hin).
  - intros Hok. pose proof (plan_numbered h m Hok Hplan) as Hn. split.
    + intros i s Hi. destruct (numbered_lookup m i s Hn Hi) as [Ho (rel & _ & Hs)].
      eauto.
    + now apply numbered_NoDup.
Qed.

Lemma ordinals_shared_and_unique_witness :
  NoDup (paths workspace_mounts) /\ NoDup (mounts workspace_mounts).
Proof.
  assert (Hplan : plan_mounts workspace_host = Ok workspace_mounts)
    by (vm_compute; reflexivity).
  destruct (ordinals_shared_and_unique workspace_host workspace_mounts Hplan)
    as [(_ & _ & _ & _ & Hp & _) Hm].
  split; [exact Hp | apply Hm; vm_compute; reflexivity].
Defined.

(** C5.  What the walk does with one entry that [os.Lstat] finds.  An
    entry that is not a link leaves the mounts as they are, and so does
    a link that cannot be resolved, a link whose target cannot be
    examined or is not a directory, and a link whose target is in the
    source tree; none of them is an error.  A link to a directory whose
    path does not start with that of the source tree adds one mount: the
    host path is the target, and the sandbox path is [/ext-go/<k>/src/]
    followed by the names that lead from the source tree to the link,
    where [k] is the number of mounts so far plus one. *)
Theorem symlink_mount_rules (h : Host) (sources path : string) (info : FileInfo)
    (err : bool) (m : Mounts) :
  let k := (len (locals m) + 1)%Z in
  let sandbox := Filepath.Join ["/ext-go"; Strconv.Itoa k; "src";
                                Strings.TrimPrefix path sources] in
  let result := visit h sources path (Some info) err m in
  ((Z.land (Mode info) ModeSymlink =? 0)%Z = true -> result = Ok m) /\
  ((Z.land (Mode info) ModeSymlink =? 0)%Z = false ->
   (EvalSymlinks h path = None -> result = Ok m) /\
   (forall target, EvalSymlinks h path = Some target ->
      (Stat h target = None -> result = Ok m) /\
      (forall tinfo, Stat h target = Some tinfo -> IsDir tinfo = false -> result = Ok m) /\
      (inside sources target -> result = Ok m) /\
      (forall tinfo, Stat h target = Some tinfo -> IsDir tinfo = true ->
         Strings.HasPrefix target sources = false ->
         result = Ok (push m target sandbox)))) /\
  (forall m', result = Ok m' -> m' <> m ->
     (Z.land (Mode info) ModeSymlink =? 0)%Z = false /\
     exists target tinfo,
       EvalSymlinks h path = Some target /\ Stat h target = Some tinfo /\
       IsDir tinfo = true /\ ~ inside sources target /\
       m' = push m target sandbox) /\
  (forall rel, Forall (fun n => name_ok n = true) rel ->
     path = sources +:+ rel_path rel -> sandbox = sandbox_path k rel).
Proof.
  intros k sandbox result.
  assert (Hk : forall target, len (locals m ++ [target]) = k).
  { intros target. rewrite len_snoc. unfold k, len. lia. }
  assert (Hpush : forall target,
             Ok {| locals := locals m ++ [target];
                   mounts := mounts m ++
                     [Filepath.Join ["/ext-go"; Strconv.Itoa (len (locals m ++ [target]));
                                     "src"; Strings.TrimPrefix path sources]];
                   paths := paths m ++
                     [Filepath.Join ["/ext-go"; Strconv.Itoa (len (locals m ++ [target]))]] |}
             = Ok (push m target sandbox)).
  { intros target. unfold push, sandbox. now rewrite Join_sandbox_prefix, Hk. }
  subst result. unfold visit.
  split; [| split; [| split]].
  - now intros ->.
  - intros ->. split; [now intros -> |].
    intros target ->. split; [| split; [| split]].
    + now intros ->.
    + now intros tinfo -> ->.
    + intros Hin. apply inside_prefix in Hin. rewrite Hin.
      destruct (Stat h target) as [tinfo|]; [| reflexivity].
      now destruct (negb (IsDir tinfo)).
    + intros tinfo -> Hdir Hpre. rewrite Hdir, Hpre. simpl. apply Hpush.
  - intros m'.
    destruct (Z.land (Mode info) ModeSymlink =? 0)%Z;
      [intros E; injection E as <-; congruence |].
    destruct (EvalSymlinks h path) as [target|] eqn:Hres;
      [| intros E; injection E as <-; congruence].
    destruct (Stat h target) as [tinfo|] eqn:Hstat;
      [| intros E; injection E as <-; congruence].
    destruct (IsDir tinfo) eqn:Hdir; simpl;
      [| intros E; injection E as <-; congruence].
    destruct (Strings.HasPrefix target sources) eqn:Hpre;
      [intros E; injection E as <-; congruence |].
    rewrite Hpush. intros E _. injection E as <-.
    split; [reflexivity |].
    exists target, tinfo.
    refine (conj eq_refl (conj Hstat (conj Hdir (conj _ eq_refl)))).
    intros Hin. apply inside_prefix in Hin. congruence.
  - intros rel Hrel ->. unfold sandbox.
    rewrite TrimPrefix_append. now apply Join_sandbox.
Qed.

Lemma symlink_mount_rules_witness :
  visit workspace_host "/home/u/go/src" "/home/u/go/src/github.com/u/ext"
    (Some link_info) false no_mounts
  = Ok (push no_mounts "/opt/ext" (sandbox_path 1 ["github.com"; "u"; "ext"])).
Proof.
  pose proof (symlink_mount_rules workspace_host "/home/u/go/src"
                "/home/u/go/src/github.com/u/ext" link_info false no_mounts)
    as (_ & Hlink & _ & Hpath).
  destruct (Hlink eq_refl) as [_ Htarget].
  destruct (Htarget "/opt/ext" eq_refl) as (_ & _ & _ & Hout).
  specialize (Hout dir_info eq_refl eq_refl eq_refl).
  rewrite (Hpath ["github.com"; "u"; "ext"]) in Hout;
    [exact Hout | repeat constructor | reflexivity].
Defined.

Lemma lstat_failure_panics (h : Host) (gopath : string) (m : Mounts)
    (entries : option (list (string * node))) :
  Lstree h (Filepath.Join [gopath; "src"]) = Node None entries ->
  mount_gopath h gopath m = Panic.
Proof. intros H. unfold mount_gopath, Walk. now rewrite H. Qed.

(** C2.  On a host whose second GOPATH entry has no [src], the planner
    does not complete: [filepath.Walk] calls the function of [compile]
    with a nil [FileInfo], and the call of [info.Mode()] panics before
    the source tree of that entry is mounted.  It is so on every host
    with a GOPATH entry without [src], and wherever [os.Lstat] fails on
    an entry that the walk meets. *)
Theorem missing_src_panics :
  Lstree missing_src_host (Filepath.Join ["/nonexistent"; "src"]) = Node None None
  /\ mount_gopath missing_src_host "/nonexistent" workspace_mounts = Panic
  /\ plan_mounts missing_src_host = Panic
  /\ (forall h gopath m entries,
         Lstree h (Filepath.Join [gopath; "src"]) = Node None entries ->
         mount_gopath h gopath m = Panic)
  /\ (forall h, host_seen_all h = false -> plan_mounts h = Panic).
Proof.
  split; [reflexivity |]. split; [| split; [| split]].
  - now apply lstat_failure_panics with (entries := None).
  - vm_compute. reflexivity.
  - intros h gopath m entries. apply lstat_failure_panics.
  - intros h Hseen. pose proof (plan_outcome h) as Hout. now rewrite Hseen in Hout.
Qed.

(** C10, as the claim states it, fails: without GOPATH and with a link
    out of [./src], the source tree [src] is mounted at [/ext-go/2/src]
    and nothing at [/ext-go/1/src]. *)
Lemma empty_gopath_counterexample :
  GOPATH no_gopath_host = "" /\
  plan_mounts no_gopath_host
  = Ok {| locals := ["/opt/ext"; "src"];
          mounts := ["/ext-go/1/src/ext"; "/ext-go/2/src"];
          paths := ["/ext-go/1"; "/ext-go/2"] |} /\
  ~ (exists m, plan_mounts no_gopath_host = Ok m /\ In "/ext-go/1/src" (mounts m)).
Proof.
  split; [reflexivity |].
  assert (Hplan : plan_mounts no_gopath_host
                  = Ok {| locals := ["/opt/ext"; "src"];
                          mounts := ["/ext-go/1/src/ext"; "/ext-go/2/src"];
                          paths := ["/ext-go/1"; "/ext-go/2"] |})
    by (vm_compute; reflexivity).
  split; [exact Hplan |].
  intros (m & Hm & Hin). rewrite Hplan in Hm. injection Hm as <-.
  simpl in Hin. destruct Hin as [E | [E | []]]; discriminate.
Qed.

(** C10, amended.  With GOPATH unset or empty there is one GOPATH entry,
    the empty one, and its source tree is the relative path [src].  When
    the walk of [src] completes, as it does when [os.Lstat] succeeds on
    every entry it meets, the planner adds the mount of the tree after
    those that the walk found: its host path is [src] and its sandbox
    path is [/ext-go/<k>/src], with [k] one more than the number of
    links mounted; that is [/ext-go/1/src] when the walk found none. *)
Theorem empty_gopath_single_root (h : Host) :
  GOPATH h = "" ->
  Strings.Split (GOPATH h) Filepath.ListSeparator = [""] /\
  Filepath.Join [""; "src"] = "src" /\
  plan_mounts h = mount_gopath h "" no_mounts /\
  (seen_all (Lstree h "src") = true ->
   exists m1, Walk h "src" (visit h "src") no_mounts = Ok m1) /\
  forall m1, Walk h "src" (visit h "src") no_mounts = Ok m1 ->
    plan_mounts h
    = Ok (push m1 "src"
            ("/ext-go/" +:+ Strconv.Itoa (len (locals m1) + 1) +:+ "/src")) /\
    (locals m1 = [] ->
     plan_mounts h = Ok {| locals := ["src"]; mounts := ["/ext-go/1/src"];
                           paths := ["/ext-go/1"] |}).
Proof.
  intros Hgo. unfold plan_mounts. rewrite Hgo.
  change (Strings.Split "" Filepath.ListSeparator) with [""].
  assert (Hone : mount_gopaths h [""] no_mounts = mount_gopath h "" no_mounts).
  { simpl. now destruct (mount_gopath h "" no_mounts). }
  split; [reflexivity |]. split; [reflexivity |]. split; [exact Hone |].
  split.
  { intros Hseen. unfold Walk.
    pose proof (walk_outcome h "src" (Lstree h "src") "src" no_mounts) as Hw.
    now rewrite Hseen in Hw. }
  intros m1 Hwalk. split.
  - rewrite Hone. unfold mount_gopath.
    change (Filepath.Join [""; "src"]) with "src". rewrite Hwalk. simpl.
    rewrite Join_sandbox_prefix, Join_sandbox_root, len_snoc.
    unfold push, sandbox_path. rewrite len_snoc. simpl rel_path.
    replace (Z.of_nat (S (length (locals m1)))) with (len (locals m1) + 1)%Z
      by (unfold len; lia).
    now rewrite append_nil_r.
  - intros Hnone. rewrite Hone.
    assert (Hc : counted m1).
    { unfold Walk in Hwalk.
      refine (walk_preserves (visit h "src") (fun _ => true) (fun _ => True) counted
                _ _ (Lstree h "src") "src" no_mounts m1 (names_all_true _) I
                counted_none Hwalk).
      - intros. eapply visit_counted; eauto.
      - trivial. }
    destruct Hc as [Hlen Hpaths]. rewrite Hnone in Hlen, Hpaths.
    destruct m1 as [l ms ps]. simpl in *. subst l ps.
    destruct ms; [| discriminate].
    unfold mount_gopath.
    change (Filepath.Join [""; "src"]) with "src". rewrite Hwalk. reflexivity.
Qed.

Lemma empty_gopath_single_root_witness :
  plan_mounts plain_host
  = Ok {| locals := ["src"]; mounts := ["/ext-go/1/src"]; paths := ["/ext-go/1"] |}.
Proof.
  destruct (empty_gopath_single_root plain_host eq_refl) as (_ & _ & _ & _ & Hroot).
  destruct (Hroot no_mounts eq_refl) as [_ Hfirst].
  exact (Hfirst eq_refl).
Defined.

(* ===================================================================== *)
(** ** Properties of the assembled command *)
(* ===================================================================== *)

Section AssemblerFacts.

Variable h : Host.

(** The command line: the fixed part, one volume for every mount, the
    prefixes of the mounts, the image and the package. *)
Lemma docker_args_shape (folder repo image remote branch pack deps prefix : string)
    (verbose steps race : bool) (targets : list string) (m : Mounts) :
  docker_args h folder repo image remote branch pack deps prefix
    verbose steps race targets m
  = [ "run"; "--rm";
      "-v"; folder +:+ ":/build";
      "-v"; depsCache h +:+ ":/deps-cache:ro";
      "-e"; "REPO_REMOTE=" +:+ remote;
      "-e"; "REPO_BRANCH=" +:+ branch;
      "-e"; "PACK=" +:+ pack;
      "-e"; "DEPS=" +:+ deps;
      "-e"; "OUT=" +:+ prefix;
      "-e"; "FLAG_V=" +:+ show_bool verbose;
      "-e"; "FLAG_X=" +:+ show_bool steps;
      "-e"; "FLAG_RACE=" +:+ show_bool race ]
    ++ "-e" :: ("TARGETS=" +:+ Strings.Replace (Strings.Join targets " ") "*" ".")
    :: (volumes (locals m) (mounts m)
        ++ ["-e"; "EXT_GOPATH=" +:+ Strings.Join (paths m) ":"; image; repo]).
Proof. unfold docker_args. rewrite <- !app_assoc. reflexivity. Qed.

Lemma split_tail (a v l : list string) (x y : string) :
  a ++ x :: y :: (v ++ l) = (a ++ x :: y :: v) ++ l.
Proof. rewrite <- app_assoc. reflexivity. Qed.

Lemma split_last_two (a v : list string) (x y e1 e2 p q : string) :
  a ++ x :: y :: (v ++ [e1; e2; p; q]) = (a ++ x :: y :: v ++ [e1; e2]) ++ [p; q].
Proof.
  change [e1; e2; p; q] with ([e1; e2] ++ [p; q]).
  rewrite <- !app_assoc. simpl. rewrite <- ?app_assoc. reflexivity.
Qed.

(** How [locate] arrives at a package and its mounts. *)
Lemma locate_cases (repo r : string) (m : Mounts) :
  locate h repo = Ok (r, m) ->
  (is_local repo = false /\ r = repo /\ m = no_mounts) \/
  (is_local repo = true /\
   exists path stat,
     Abs h repo = Some path /\ Stat h path = Some stat /\ IsDir stat = true /\
     ImportDir h path = Some r /\ plan_mounts h = Ok m).
Proof.
  unfold locate. destruct (is_local repo).
  - intros H. right. split; [reflexivity |].
    destruct (Abs h repo) as [path|]; [| discriminate]. simpl in H.
    destruct (Stat h path) as [stat|] eqn:Hstat; [| discriminate].
    destruct (IsDir stat) eqn:Hdir; [| discriminate]. simpl in H.
    destruct (ImportDir h path) as [ip|] eqn:Himp; [| discriminate]. simpl in H.
    destruct (plan_mounts h) as [m0| |]; try discriminate. simpl in H.
    injection H as <- <-. exists path, stat. auto.
  - intros H. injection H as <- <-. now left.
Qed.

Lemma compile_args_cases (repo image remote branch pack deps dest prefix : string)
    (verbose steps race : bool) (targets args : list string) :
  compile_args h repo image remote branch pack deps dest prefix
    verbose steps race targets = Ok args ->
  exists folder r m,
    output_folder h dest = Ok folder /\ locate h repo = Ok (r, m) /\
    args = docker_args h folder r image remote branch pack deps prefix
             verbose steps race targets m.
Proof.
  unfold compile_args.
  destruct (output_folder h dest) as [folder| |]; try discriminate. simpl.
  destruct (locate h repo) as [[r m]| |]; try discriminate. simpl.
  intros H. injection H as <-. exists folder, r, m. auto.
Qed.

Lemma Replace_star (s : string) : Strings.Replace s "*" "." = star_to_dot s.
Proof.
  unfold Strings.Replace. induction s as [|c s IH]; [reflexivity |].
  cbn [Strings.replace_from star_to_dot]. rewrite prefix_char, Ascii.eqb_sym.
  destruct (Ascii.eqb c "*"); simpl; now rewrite IH.
Qed.

Lemma star_to_dot_append (a b : string) :
  star_to_dot (a +:+ b) = star_to_dot a +:+ star_to_dot b.
Proof. induction a as [|c a IH]; simpl; [reflexivity | now rewrite IH]. Qed.

Lemma star_to_dot_concat (selectors : list string) :
  star_to_dot (String.concat " " selectors) = targets_spec selectors.
Proof.
  unfold targets_spec. induction selectors as [|a l IH]; [reflexivity |].
  destruct l as [|b l]; [reflexivity |].
  rewrite concat_cons. change (map star_to_dot (a :: b :: l))
    with (star_to_dot a :: star_to_dot b :: map star_to_dot l).
  rewrite concat_cons, !star_to_dot_append, IH. reflexivity.
Qed.

(** Replacing the wildcards keeps the fields between slashes apart. *)
Lemma star_to_dot_Split (s : string) :
  Strings.Split (star_to_dot s) "/" = map star_to_dot (Strings.Split s "/").
Proof.
  induction s as [|c s IH]; [reflexivity |].
  cbn [star_to_dot Strings.Split]. rewrite IH.
  destruct (Ascii.eqb c "*") eqn:Hstar.
  - apply Ascii.eqb_eq in Hstar. subst c.
    change (Ascii.eqb "." "/") with false. change (Ascii.eqb "*" "/") with false.
    cbv iota. destruct (Strings.Split s "/"); reflexivity.
  - destruct (Ascii.eqb c "/"); [reflexivity |].
    destruct (Strings.Split s "/"); cbn [map star_to_dot]; now rewrite Hstar.
Qed.

End AssemblerFacts.

(** C1, as the claim states it, fails: for the package
    [github.com/u/mylib], which is not a path of the host, the command
    line has [EXT_GOPATH], with an empty value. *)
Lemma ext_gopath_counterexample :
  is_local "github.com/u/mylib" = false /\
  main_args workspace_host default_flags "github.com/u/mylib"
  = Ok [ "run"; "--rm"; "-v"; "/home/u/proj:/build";
         "-v"; "/tmp/xgo-cache:/deps-cache:ro";
         "-e"; "REPO_REMOTE="; "-e"; "REPO_BRANCH="; "-e"; "PACK=";
         "-e"; "DEPS="; "-e"; "OUT="; "-e"; "FLAG_V=false"; "-e"; "FLAG_X=false";
         "-e"; "FLAG_RACE=false"; "-e"; "TARGETS=./."; "-e"; "EXT_GOPATH=";
         "karalabe/xgo-latest"; "github.com/u/mylib" ] /\
  ~ (forall args,
        main_args workspace_host default_flags "github.com/u/mylib" = Ok args ->
        forall a, In a args -> Strings.HasPrefix a "EXT_GOPATH=" = false).
Proof.
  split; [reflexivity |].
  assert (Hargs : main_args workspace_host default_flags "github.com/u/mylib"
                  = Ok [ "run"; "--rm"; "-v"; "/home/u/proj:/build";
                         "-v"; "/tmp/xgo-cache:/deps-cache:ro";
                         "-e"; "REPO_REMOTE="; "-e"; "REPO_BRANCH="; "-e"; "PACK=";
                         "-e"; "DEPS="; "-e"; "OUT="; "-e"; "FLAG_V=false";
                         "-e"; "FLAG_X=false"; "-e"; "FLAG_RACE=false";
                         "-e"; "TARGETS=./."; "-e"; "EXT_GOPATH=";
                         "karalabe/xgo-latest"; "github.com/u/mylib" ])
    by (vm_compute; reflexivity).
  split; [exact Hargs |].
  intros Hclaim. specialize (Hclaim _ Hargs "EXT_GOPATH=").
  assert (Hin : In "EXT_GOPATH=" [ "run"; "--rm"; "-v"; "/home/u/proj:/build";
                         "-v"; "/tmp/xgo-cache:/deps-cache:ro";
                         "-e"; "REPO_REMOTE="; "-e"; "REPO_BRANCH="; "-e"; "PACK=";
                         "-e"; "DEPS="; "-e"; "OUT="; "-e"; "FLAG_V=false";
                         "-e"; "FLAG_X=false"; "-e"; "FLAG_RACE=false";
                         "-e"; "TARGETS=./."; "-e"; "EXT_GOPATH=";
                         "karalabe/xgo-latest"; "github.com/u/mylib" ])
    by (simpl; tauto).
  apply Hclaim in Hin. vm_compute in Hin. discriminate.
Qed.

(** C1, amended.  The variable [EXT_GOPATH] is in every command line
    that is assembled, right before the image and the package.  For a
    package that is not a path of the host its value is empty; for a
    local build its value is the prefixes of the mounts of the planner,
    joined by colons. *)
Theorem ext_gopath_always_passed (h : Host)
    (repo image remote branch pack deps dest prefix : string)
    (verbose steps race : bool) (targets args : list string) :
  compile_args h repo image remote branch pack deps dest prefix
    verbose steps race targets = Ok args ->
  (is_local repo = false ->
   exists pre, args = pre ++ ["-e"; "EXT_GOPATH="; image; repo]) /\
  (is_local repo = true ->
   exists pre m r,
     plan_mounts h = Ok m /\
     args = pre ++ ["-e"; "EXT_GOPATH=" +:+ Strings.Join (paths m) ":"; image; r]).
Proof.
  intros Hargs.
  apply compile_args_cases in Hargs as (folder & r & m & _ & Hloc & ->).
  rewrite docker_args_shape.
  apply locate_cases in Hloc
    as [(Hl & -> & ->) | (Hl & path & stat & _ & _ & _ & _ & Hplan)];
    (split; intros Hl'; [| ]); try congruence.
  - rewrite split_tail. eexists. reflexivity.
  - rewrite split_tail. eexists _, m, r. split; [exact Hplan | reflexivity].
Qed.

Lemma ext_gopath_always_passed_witness :
  exists pre,
    [ "run"; "--rm"; "-v"; "/home/u/proj:/build";
      "-v"; "/tmp/xgo-cache:/deps-cache:ro";
      "-e"; "REPO_REMOTE="; "-e"; "REPO_BRANCH="; "-e"; "PACK=";
      "-e"; "DEPS="; "-e"; "OUT="; "-e"; "FLAG_V=false"; "-e"; "FLAG_X=false";
      "-e"; "FLAG_RACE=false"; "-e"; "TARGETS=./."; "-e"; "EXT_GOPATH=";
      "karalabe/xgo-latest"; "github.com/u/mylib" ]
    = pre ++ ["-e"; "EXT_GOPATH="; "karalabe/xgo-latest"; "github.com/u/mylib"].
Proof.
  refine (proj1 (ext_gopath_always_passed workspace_host "github.com/u/mylib"
                   "karalabe/xgo-latest" "" "" "" "" "" "" false false false ["*/*"]
                   _ _) _).
  - vm_compute. reflexivity.
  - reflexivity.
Defined.

(** C6.  For a package given as a path of the host, the package that is
    passed to [docker] is the import path that [build.ImportDir] returns
    for the absolute form of the path, and the image followed by this
    import path are the last two arguments.  The command line is
    assembled whenever the folder, the directory, the import path and
    the mounts are found. *)
Theorem local_reference_resolved (h : Host)
    (repo image remote branch pack deps dest prefix : string)
    (verbose steps race : bool) (targets : list string) :
  is_local repo = true ->
  (forall args,
      compile_args h repo image remote branch pack deps dest prefix
        verbose steps race targets = Ok args ->
      exists path importPath pre,
        Abs h repo = Some path /\ ImportDir h path = Some importPath /\
        args = pre ++ [image; importPath]) /\
  (forall folder path stat importPath m,
      output_folder h dest = Ok folder ->
      Abs h repo = Some path -> Stat h path = Some stat -> IsDir stat = true ->
      ImportDir h path = Some importPath -> plan_mounts h = Ok m ->
      exists pre,
        compile_args h repo image remote branch pack deps dest prefix
          verbose steps race targets = Ok (pre ++ [image; importPath])).
Proof.
  intros Hlocal. split.
  - intros args Hargs.
    apply compile_args_cases in Hargs as (folder & r & m & _ & Hloc & ->).
    apply locate_cases in Hloc
      as [(Hl & _) | (_ & path & stat & Habs & _ & _ & Himp & _)]; [congruence |].
    exists path, r. eexists. refine (conj Habs (conj Himp _)).
    rewrite docker_args_shape, split_last_two. reflexivity.
  - intros folder path stat importPath m Hfolder Habs Hstat Hdir Himp Hplan.
    unfold compile_args, locate.
    rewrite Hfolder, Hlocal, Habs. simpl. rewrite Hstat, Hdir, Himp. simpl.
    rewrite Hplan. simpl. rewrite docker_args_shape, split_last_two.
    eexists. reflexivity.
Qed.

Lemma local_reference_resolved_witness :
  exists pre,
    main_args workspace_host default_flags "/home/u/go/src/github.com/u/mylib"
    = Ok (pre ++ ["karalabe/xgo-latest"; "github.com/u/mylib"]).
Proof.
  refine (proj2 (local_reference_resolved workspace_host
                   "/home/u/go/src/github.com/u/mylib" "karalabe/xgo-latest"
                   "" "" "" "" "" "" false false false ["*/*"] eq_refl)
            "/home/u/proj" "/home/u/go/src/github.com/u/mylib" dir_info
            "github.com/u/mylib" workspace_mounts _ _ _ _ _ _);
    vm_compute; reflexivity.
Defined.

(** C7.  The value of [TARGETS] in the command line is the list of
    target selectors joined by spaces, with every [*] replaced by [.];
    the slashes stay where they are, and the default [*/*] becomes
    [./.]. *)
Theorem targets_normalised (h : Host) (f : Flags) (repo : string) :
  let selectors := Strings.Split (targets f) ","%char in
  let value := Strings.Replace (Strings.Join selectors " ") "*" "." in
  (forall args, main_args h f repo = Ok args ->
     exists pre post, args = pre ++ "-e" :: ("TARGETS=" +:+ value) :: post) /\
  value = targets_spec selectors /\
  (forall s, Strings.Split (star_to_dot s) "/" = map star_to_dot (Strings.Split s "/")) /\
  (targets f = "*/*" -> value = "./.").
Proof.
  intros selectors value. split; [| split; [| split]].
  - intros args Hargs. unfold main_args in Hargs.
    apply compile_args_cases in Hargs as (folder & r & m & _ & _ & ->).
    rewrite docker_args_shape. eauto.
  - unfold value, Strings.Join. now rewrite Replace_star, star_to_dot_concat.
  - apply star_to_dot_Split.
  - intros Hdef. unfold value, selectors. now rewrite Hdef.
Qed.

Lemma targets_normalised_witness :
  Strings.Replace (Strings.Join (Strings.Split (targets default_flags) ","%char) " ")
    "*" "." = "./.".
Proof.
  exact (proj2 (proj2 (proj2 (targets_normalised workspace_host default_flags
                                "github.com/u/mylib"))) eq_refl).
Defined.

(* ===================================================================== *)
(** ** The dependency cache *)
(* ===================================================================== *)

Section CacheFacts.

Variable h : Host.

Lemma length_positive (s : string) :
  (0 <? String.length s)%nat = negb (String.eqb s "").
Proof. now destruct s. Qed.

Lemma world_eta (w : World) : w = {| files := files w; trace := trace w ++ [] |}.
Proof. destruct w. simpl. now rewrite app_nil_r. Qed.

(** [cache_dep] does one of the steps of [dep_step]. *)
Lemma cache_dep_step (dep : string) (w : World) :
  exists evs fs o,
    cache_dep h dep w = ({| files := fs; trace := trace w ++ evs |}, o)
    /\ dep_step h dep w evs fs o.
Proof.
  unfold cache_dep. rewrite length_positive.
  change (Strings.TrimSpace dep) with (dep_url dep).
  change (cache_path h (dep_url dep)) with (dep_path h dep).
  destruct (negb (dep_url dep =? "")%string) eqn:Hnb.
  - destruct (files w !! dep_path h dep) as [i|] eqn:Hfile.
    + exists [Stdout (msg_cached (dep_path h dep))], (files w), (Ok tt).
      split; [reflexivity |].
      apply step_hit; [exact Hnb |]. unfold cached. now rewrite Hfile.
    + assert (Hc : cached w (dep_path h dep) = false)
        by (unfold cached; now rewrite Hfile).
      destruct (CreateDenied h (dep_path h dep)) eqn:Hcreate.
      * exists [Stdout (msg_downloading (dep_url dep))], (files w),
          (Fatal "Failed to create dependency file").
        split; [reflexivity |]. now apply step_create_fails.
      * destruct (Get h (dep_url dep)) as [res|] eqn:Hget.
        -- destruct (ReadErr res) as [n|] eqn:Hread.
           ++ exists [Stdout (msg_downloading (dep_url dep)); HttpGet (dep_url dep)],
                (<[dep_path h dep := IFile (String.substring 0 n (Body res))]>
                   (<[dep_path h dep := IFile ""]> (files w))),
                (Fatal "Failed to download dependency").
              split; [unfold store, fetch, say; simpl; now rewrite <- app_assoc |].
              now apply step_copy_fails.
           ++ exists [Stdout (msg_downloading (dep_url dep)); HttpGet (dep_url dep);
                      Stdout (msg_new (dep_path h dep))],
                (<[dep_path h dep := IFile (Body res)]>
                   (<[dep_path h dep := IFile ""]> (files w))),
                (Ok tt).
              split; [unfold store, fetch, say; simpl; now rewrite <- !app_assoc |].
              now apply step_fetched.
        -- exists [Stdout (msg_downloading (dep_url dep)); HttpGet (dep_url dep)],
             (<[dep_path h dep := IFile ""]> (files w)),
             (Fatal "Failed to retrieve dependency").
           split; [unfold store, fetch, say; simpl; now rewrite <- app_assoc |].
           now apply step_get_fails.
  - exists [], (files w), (Ok tt).
    split; [f_equal; apply world_eta |]. now apply step_blank.
Qed.

Lemma append_inj_r (a b c : string) : a +:+ c = b +:+ c -> a = b.
Proof.
  revert b. induction a as [|x a IH]; intros [|y b] H.
  - reflexivity.
  - apply (f_equal String.length) in H. simpl in H.
    rewrite length_append in H. lia.
  - apply (f_equal String.length) in H. simpl in H.
    rewrite length_append in H. lia.
  - simpl in H. injection H as -> H. f_equal. now apply IH.
Qed.

Lemma msg_cached_eqb (p q : string) :
  (msg_cached p =? msg_cached q)%string = (p =? q)%string.
Proof.
  destruct (String.eqb_spec p q) as [-> | Hne].
  - apply String.eqb_refl.
  - apply String.eqb_neq. intros H. apply Hne.
    unfold msg_cached in H.
    apply (String.app_inj "Dependency already cached: ") in H.
    now apply append_inj_r in H.
Qed.

Lemma msg_downloading_eqb (url p : string) :
  (msg_downloading url =? msg_cached p)%string = false.
Proof. reflexivity. Qed.

Lemma msg_new_eqb (path p : string) :
  (msg_new path =? msg_cached p)%string = false.
Proof. reflexivity. Qed.

Lemma cached_insert (fs : gmap string inode) (t : list event)
    (path p : string) (i : inode) :
  cached {| files := <[path := i]> fs; trace := t |} p
  = (path =? p)%string || cached {| files := fs; trace := t |} p.
Proof.
  unfold cached. simpl. destruct (String.eqb_spec path p) as [-> | Hne].
  - now rewrite lookup_insert_eq.
  - now rewrite lookup_insert_ne.
Qed.

(** A file that is there is not fetched, and stays. *)
Lemma step_present (dep : string) (w : World) (evs : list event)
    (fs : gmap string inode) (o : outcome unit) (t : list event) (p : string) :
  dep_step h dep w evs fs o -> cached w p = true ->
  fetches_of h p evs = [] /\ cached {| files := fs; trace := t |} p = true.
Proof.
  assert (Hsame : cached {| files := files w; trace := t |} p = cached w p)
    by reflexivity.
  intros Hstep Hp.
  destruct Hstep as [Hnb | Hnb Hc | Hnb Hc Hcr | Hnb Hc Hcr Hget
                    | res n Hnb Hc Hcr Hget Hrd | res Hnb Hc Hcr Hget Hrd];
    simpl; rewrite ?cached_insert, ?Hsame, ?Hp, ?orb_true_r;
    try (split; reflexivity).
  all: change (cache_path h (dep_url dep)) with (dep_path h dep);
    destruct (String.eqb_spec (dep_path h dep) p) as [E | _];
    [congruence | split; reflexivity].
Qed.

(** The fetches and the reports of one step that does not fail, for
    the cache file [p]. *)
Lemma step_counts (dep : string) (w : World) (evs : list event)
    (fs : gmap string inode) (t : list event) (p : string) :
  dep_step h dep w evs fs (Ok tt) ->
  let here := nonblank dep && (dep_path h dep =? p)%string in
  length (fetches_of h p evs) = (if here && negb (cached w p) then 1 else 0)%nat /\
  length (reports_of p evs) = (if here && cached w p then 1 else 0)%nat /\
  cached {| files := fs; trace := t |} p = cached w p || here.
Proof.
  assert (Hsame : cached {| files := files w; trace := t |} p = cached w p)
    by reflexivity.
  intros Hstep. remember (Ok tt) as o eqn:Ho.
  destruct Hstep as [Hnb | Hnb Hc | Hnb Hc Hcr | Hnb Hc Hcr Hget
                    | res n Hnb Hc Hcr Hget Hrd | res Hnb Hc Hcr Hget Hrd];
    try discriminate; unfold fetches_of, reports_of; cbn [List.filter].
  - rewrite Hnb, Hsame, orb_false_r. auto.
  - rewrite Hnb, Hsame, msg_cached_eqb.
    destruct (String.eqb_spec (dep_path h dep) p) as [<- | _]; cbn [andb negb length].
    + rewrite Hc. auto.
    + rewrite orb_false_r. auto.
  - rewrite Hnb, !cached_insert, Hsame, msg_new_eqb, msg_downloading_eqb.
    change (cache_path h (dep_url dep)) with (dep_path h dep).
    destruct (String.eqb_spec (dep_path h dep) p) as [<- | _]; cbn [andb negb orb length].
    + rewrite Hc. auto.
    + rewrite orb_false_r. auto.
Qed.

Lemma occurrences_cons (p dep : string) (deps : list string) :
  occurrences h p (dep :: deps)
  = ((if nonblank dep && (dep_path h dep =? p)%string then 1 else 0)
     + occurrences h p deps)%nat.
Proof.
  unfold occurrences. simpl.
  now destruct (nonblank dep && (dep_path h dep =? p)%string).
Qed.

Lemma fetches_of_app (p : string) (a b : list event) :
  fetches_of h p (a ++ b) = fetches_of h p a ++ fetches_of h p b.
Proof. apply List.filter_app. Qed.

Lemma reports_of_app (p : string) (a b : list event) :
  reports_of p (a ++ b) = reports_of p a ++ reports_of p b.
Proof. apply List.filter_app. Qed.

(** A run of the loop that does not fail: for every cache file, one
    fetch when the file is missing and an entry asks for it, and a
    report for every other entry that asks for it. *)
Lemma cache_deps_counts (deps : list string) (w w' : World) :
  cache_deps h deps w = (w', Ok tt) ->
  exists evs, trace w' = trace w ++ evs /\
    forall p,
      let fetched := negb (cached w p) && (0 <? occurrences h p deps)%nat in
      length (fetches_of h p evs) = (if fetched then 1 else 0)%nat /\
      length (reports_of p evs)
      = (occurrences h p deps - (if fetched then 1 else 0))%nat /\
      cached w' p = cached w p || (0 <? occurrences h p deps)%nat.
Proof.
  revert w. induction deps as [|dep deps IH]; intros w Hrun.
  - simpl in Hrun. injection Hrun as <-. exists []. split; [now rewrite app_nil_r |].
    intros p. simpl. rewrite andb_false_r, orb_false_r. auto.
  - simpl in Hrun.
    destruct (cache_dep_step dep w) as (evs1 & fs1 & o1 & Hdep & Hstep).
    rewrite Hdep in Hrun. destruct o1 as [[]| |]; try discriminate.
    destruct (IH _ Hrun) as (evs2 & Htrace & Hrest).
    exists (evs1 ++ evs2). split; [now rewrite Htrace, app_assoc |].
    intros p. cbv zeta.
    destruct (step_counts dep w evs1 fs1 (trace w ++ evs1) p Hstep)
      as (Hf1 & Hr1 & Hc1).
    destruct (Hrest p) as (Hf2 & Hr2 & Hc2).
    rewrite fetches_of_app, reports_of_app, !length_app, Hf1, Hr1, Hf2, Hr2, Hc2, Hc1.
    rewrite occurrences_cons.
    destruct (nonblank dep && (dep_path h dep =? p)%string);
      destruct (cached w p); simpl;
      destruct (occurrences h p deps); simpl; repeat split; lia.
Qed.

(** A file that is there is never fetched, however the run ends. *)
Lemma present_never_fetched (deps : list string) (w w' : World) (o : outcome unit)
    (p : string) :
  cache_deps h deps w = (w', o) -> cached w p = true ->
  exists evs, trace w' = trace w ++ evs /\
              fetches_of h p evs = [] /\ cached w' p = true.
Proof.
  revert w. induction deps as [|dep deps IH]; intros w Hrun Hp.
  - simpl in Hrun. injection Hrun as <- <-. exists [].
    split; [now rewrite app_nil_r | auto].
  - simpl in Hrun.
    destruct (cache_dep_step dep w) as (evs1 & fs1 & o1 & Hdep & Hstep).
    rewrite Hdep in Hrun.
    destruct (step_present dep w evs1 fs1 o1 (trace w ++ evs1) p Hstep Hp)
      as [Hf1 Hc1].
    destruct o1 as [[]| |].
    + destruct (IH _ Hrun Hc1) as (evs2 & Htrace & Hf2 & Hc2).
      exists (evs1 ++ evs2). split; [now rewrite Htrace, app_assoc |].
      now rewrite fetches_of_app, Hf1, Hf2.
    + injection Hrun as <- <-. exists evs1. auto.
    + injection Hrun as <- <-. exists evs1. auto.
Qed.

(** White space entries do nothing. *)
Lemma cache_deps_nonblank (deps : list string) (w : World) :
  cache_deps h deps w = cache_deps h (List.filter nonblank deps) w.
Proof.
  revert w. induction deps as [|dep deps IH]; intros w; [reflexivity |].
  simpl. destruct (nonblank dep) eqn:Hnb.
  - simpl. destruct (cache_dep h dep w) as [w1 [[]| |]]; auto.
  - unfold cache_dep. rewrite length_positive.
    unfold nonblank in Hnb. rewrite Hnb. apply IH.
Qed.

(** After a failure nothing that follows in the list is looked at. *)
Lemma cache_deps_stops (before rest : list string) (dep msg : string)
    (w w1 w2 : World) :
  cache_deps h before w = (w1, Ok tt) ->
  cache_dep h dep w1 = (w2, Fatal msg) ->
  cache_deps h (before ++ dep :: rest) w = (w2, Fatal msg).
Proof.
  revert w. induction before as [|d before IH]; intros w Hbefore Hdep.
  - simpl in Hbefore. injection Hbefore as <-. simpl. now rewrite Hdep.
  - simpl in *. destruct (cache_dep h d w) as [w0 [[]| |]]; try discriminate.
    now apply IH.
Qed.

Lemma mkdir_all_keeps (rooted : bool) (stack : list string)
    (fs fs' : gmap string inode) (p : string) :
  mkdir_all h rooted stack fs = Some fs' ->
  is_Some (fs !! p) -> is_Some (fs' !! p).
Proof.
  revert fs'. induction stack as [|e below IH]; intros fs' Hmk Hp; simpl in Hmk.
  - now injection Hmk as <-.
  - destruct (fs !! Filepath.render rooted (e :: below)) as [[|data]|].
    + now injection Hmk as <-.
    + discriminate.
    + destruct (mkdir_all h rooted below fs) as [fs0|]; [| discriminate].
      destruct (MkdirDenied h _); [discriminate |]. injection Hmk as <-.
      apply lookup_insert_is_Some'. right. now apply IH.
Qed.

Lemma MkdirAll_keeps (path : string) (w w' : World) (p : string) :
  MkdirAll h path w = Some w' ->
  trace w' = trace w /\ (cached w p = true -> cached w' p = true).
Proof.
  unfold MkdirAll.
  destruct (mkdir_all h _ _ (files w)) as [fs|] eqn:Hmk; [| discriminate].
  intros H. injection H as <-. split; [reflexivity |].
  unfold cached. simpl. intros Hp.
  assert (Hsome : is_Some (files w !! p)) by (destruct (files w !! p); [eauto | discriminate]).
  destruct (mkdir_all_keeps _ _ _ _ p Hmk Hsome) as [i ->]. reflexivity.
Qed.

End CacheFacts.

(* ===================================================================== *)
(** ** Properties of the dependency cache *)
(* ===================================================================== *)

Lemma occurrences_positive (h : Host) (deps : list string) (dep : string) :
  In dep deps -> nonblank dep = true ->
  (0 < occurrences h (dep_path h dep) deps)%nat.
Proof.
  intros Hin Hnb. induction deps as [|d deps IH]; [contradiction |].
  rewrite occurrences_cons. destruct Hin as [-> | Hin].
  - rewrite Hnb, String.eqb_refl. simpl. lia.
  - specialize (IH Hin). lia.
Qed.

Lemma cacheDeps_loop (h : Host) (crossDeps : string) (w w0 : World) :
  crossDeps <> "" -> MkdirAll h (depsCache h) w = Some w0 ->
  cacheDeps h crossDeps w = cache_deps h (Strings.Split crossDeps " ") w0.
Proof.
  intros Hne Hmk. unfold cacheDeps.
  apply String.eqb_neq in Hne. now rewrite Hne, Hmk.
Qed.

(** C3.  The loop over the entries of a dependency list.  Entries of
    white space do nothing.  In a run that does not fail, for every
    other entry: its cache file, named after the last element of the
    URL, is there afterwards; when the file was there before, no URL
    with this cache file is fetched and every entry with this cache file
    is reported as already cached; when it was not, exactly one URL with
    this cache file is fetched, and every entry with this cache file but
    one is reported as already cached, so that entries with the same
    base name share one file and one fetch. *)
Theorem cache_hits_and_misses (h : Host) (deps : list string) (w : World) :
  cache_deps h deps w = cache_deps h (List.filter nonblank deps) w /\
  (forall crossDeps w00,
      crossDeps <> "" -> MkdirAll h (depsCache h) w00 = Some w ->
      deps = Strings.Split crossDeps " " ->
      cacheDeps h crossDeps w00 = cache_deps h deps w) /\
  forall w', cache_deps h deps w = (w', Ok tt) ->
    exists evs, trace w' = trace w ++ evs /\
      forall dep, In dep deps -> nonblank dep = true ->
        let path := cache_path h (Strings.TrimSpace dep) in
        cached w' path = true /\
        (cached w path = true ->
           fetches_of h path evs = [] /\
           length (reports_of path evs) = occurrences h path deps) /\
        (cached w path = false ->
           length (fetches_of h path evs) = 1%nat /\
           length (reports_of path evs) = (occurrences h path deps - 1)%nat).
Proof.
  split; [apply cache_deps_nonblank |]. split.
  - intros crossDeps w00 Hne Hmk ->. now apply cacheDeps_loop.
  - intros w' Hrun.
    destruct (cache_deps_counts h deps w w' Hrun) as (evs & Htrace & Hcount).
    exists evs. split; [exact Htrace |].
    intros dep Hin Hnb path.
    pose proof (occurrences_positive h deps dep Hin Hnb) as Hpos.
    change (cache_path h (Strings.TrimSpace dep)) with (dep_path h dep) in path.
    subst path. destruct (Hcount (dep_path h dep)) as (Hf & Hr & Hc).
    apply Nat.ltb_lt in Hpos. rewrite Hpos in *.
    split; [now rewrite Hc, orb_true_r |]. split; intros Hbefore;
      rewrite Hbefore in *; simpl in *.
    + split; [now apply length_zero_iff_nil | lia].
    + split; [exact Hf | exact Hr].
Qed.

Lemma cache_hits_and_misses_witness :
  exists evs,
    trace (fst (cache_deps workspace_host ["http://x/a.tgz"; ""; "http://y/a.tgz"]
                  empty_world)) = [] ++ evs /\
    length (fetches_of workspace_host "/tmp/xgo-cache/a.tgz" evs) = 1%nat /\
    length (reports_of "/tmp/xgo-cache/a.tgz" evs) = 1%nat.
Proof.
  destruct (cache_hits_and_misses workspace_host
              ["http://x/a.tgz"; ""; "http://y/a.tgz"] empty_world)
    as (_ & _ & Hrun).
  destruct (Hrun (fst (cache_deps workspace_host
                         ["http://x/a.tgz"; ""; "http://y/a.tgz"] empty_world)))
    as (evs & Htrace & Hdeps); [vm_compute; reflexivity |].
  exists evs. split; [exact Htrace |].
  destruct (Hdeps "http://y/a.tgz") as (_ & _ & Hmiss);
    [simpl; tauto | vm_compute; reflexivity |].
  exact (Hmiss eq_refl).
Defined.

Section RunFacts.

Variable h : Host.

Lemma cached_false (w : World) (p : string) :
  cached w p = false -> files w !! p = None.
Proof. unfold cached. now destruct (files w !! p). Qed.

Lemma main_stops_at_cache (f : Flags) (repo out : string) (w : World) :
  DockerVersion h = true -> DockerImages h = Some out ->
  Strings.Contains out (select_image f) = true \/ DockerPull h (select_image f) = true ->
  exists w0, files w0 = files w /\
    forall w1 msg, cacheDeps h (crossDeps f) w0 = (w1, Fatal msg) ->
                   main h f [repo] w = (w1, Fatal msg).
Proof.
  intros Hversion Himages Himage. unfold main. rewrite Hversion, Himages. simpl negb.
  cbv iota.
  destruct (Strings.Contains out (select_image f)) eqn:Hfound; simpl negb; cbv iota.
  - eexists. split; [| intros w1 msg Hc; simpl andb; cbv iota; rewrite Hc; reflexivity].
    reflexivity.
  - destruct Himage as [? | Hpull]; [discriminate |]. rewrite Hpull.
    eexists. split; [| intros w1 msg Hc; simpl; rewrite Hc; reflexivity].
    reflexivity.
Qed.

Lemma dep_path_same (h' : Host) (dep : string) :
  TempDir h' = TempDir h -> dep_path h' dep = dep_path h dep.
Proof. intros H. unfold dep_path, cache_path, depsCache. now rewrite H. Qed.

Lemma cache_dep_hit (dep : string) (w : World) :
  nonblank dep = true -> cached w (dep_path h dep) = true ->
  cache_dep h dep w = (say (msg_cached (dep_path h dep)) w, Ok tt).
Proof.
  intros Hnb Hc. unfold cache_dep. rewrite length_positive.
  unfold nonblank in Hnb. rewrite Hnb.
  change (cache_path h (Strings.TrimSpace dep)) with (dep_path h dep).
  unfold cached in Hc. now destruct (files w !! dep_path h dep).
Qed.

Lemma cacheDeps_present (crossDeps : string) (w w' : World) (o : outcome unit)
    (p : string) :
  cacheDeps h crossDeps w = (w', o) -> cached w p = true ->
  exists evs, trace w' = trace w ++ evs /\ fetches_of h p evs = [] /\ cached w' p = true.
Proof.
  unfold cacheDeps. intros Hrun Hp.
  destruct (crossDeps =? "")%string.
  - injection Hrun as <- <-. exists []. now rewrite app_nil_r.
  - destruct (MkdirAll h (depsCache h) w) as [w0|] eqn:Hmk.
    + destruct (MkdirAll_keeps h _ _ _ p Hmk) as [Ht Hkeep].
      destruct (present_never_fetched h _ _ _ _ p Hrun (Hkeep Hp))
        as (evs & Htrace & Hf & Hc).
      exists evs. now rewrite Htrace, Ht.
    + injection Hrun as <- <-. exists []. now rewrite app_nil_r.
Qed.

End RunFacts.

(** C8.  A failure while the dependencies are cached ends the run at
    once.  When the cache directory cannot be made, nothing is printed
    or fetched.  When the file of a dependency cannot be created, the
    fetch fails or the copy of the body fails, the entry ends in
    [log.Fatalf]; the loop then ends as this entry ended, whatever
    follows in the list, and [main] ends with it. *)
Theorem failure_aborts_run (h : Host) :
  (forall crossDeps w,
      crossDeps <> "" -> MkdirAll h (depsCache h) w = None ->
      cacheDeps h crossDeps w = (w, Fatal "Failed to create dependency cache")) /\
  (forall dep w,
      nonblank dep = true -> cached w (dep_path h dep) = false ->
      (CreateDenied h (dep_path h dep) = true ->
       exists w', cache_dep h dep w = (w', Fatal "Failed to create dependency file")) /\
      (CreateDenied h (dep_path h dep) = false ->
       (Get h (dep_url dep) = None ->
        exists w', cache_dep h dep w = (w', Fatal "Failed to retrieve dependency")) /\
       (forall res n,
           Get h (dep_url dep) = Some res -> ReadErr res = Some n ->
           exists w', cache_dep h dep w = (w', Fatal "Failed to download dependency")))) /\
  (forall before dep rest w w1 w2 msg,
      cache_deps h before w = (w1, Ok tt) ->
      cache_dep h dep w1 = (w2, Fatal msg) ->
      cache_deps h (before ++ dep :: rest) w = (w2, Fatal msg)) /\
  (forall f repo out w,
      DockerVersion h = true -> DockerImages h = Some out ->
      Strings.Contains out (select_image f) = true \/ DockerPull h (select_image f) = true ->
      exists w0, files w0 = files w /\
        forall w1 msg, cacheDeps h (crossDeps f) w0 = (w1, Fatal msg) ->
                       main h f [repo] w = (w1, Fatal msg)).
Proof.
  split; [| split; [| split]].
  - intros crossDeps w Hne Hmk. unfold cacheDeps.
    apply String.eqb_neq in Hne. now rewrite Hne, Hmk.
  - intros dep w Hnb Hc. apply cached_false in Hc.
    assert (Hdep : forall k1 k2,
               (if (0 <? String.length (Strings.TrimSpace dep))%nat
                then match files w !! cache_path h (Strings.TrimSpace dep) with
                     | Some i => k1 i
                     | None => k2
                     end
                else (w, Ok tt)) = (k2 : World * outcome unit)).
    { intros k1 k2. rewrite length_positive. unfold nonblank in Hnb. rewrite Hnb.
      change (cache_path h (Strings.TrimSpace dep)) with (dep_path h dep).
      now rewrite Hc. }
    unfold cache_dep. rewrite Hdep.
    change (cache_path h (Strings.TrimSpace dep)) with (dep_path h dep).
    change (Strings.TrimSpace dep) with (dep_url dep).
    split; [intros ->; eauto |]. intros ->. split.
    + intros ->. eauto.
    + intros res n -> ->. eauto.
  - intros before dep rest w w1 w2 msg. apply cache_deps_stops.
  - intros f repo out w. apply main_stops_at_cache.
Qed.

Lemma failure_aborts_run_witness :
  cache_deps offline_host ([] ++ "http://x/a.tgz" :: ["http://x/b.tgz"]) empty_world
  = (fst (cache_dep offline_host "http://x/a.tgz" empty_world),
     Fatal "Failed to retrieve dependency").
Proof.
  destruct (failure_aborts_run offline_host) as (_ & _ & Hstop & _).
  apply (Hstop [] "http://x/a.tgz" ["http://x/b.tgz"] empty_world empty_world);
    [reflexivity | vm_compute; reflexivity].
Defined.

(** C9.  The cache file is created before the URL is fetched, and it is
    left where it is when the fetch or the copy of the body fails: it is
    then empty, or holds the bytes that were copied.  A later run that
    finds the file, on a host with the same cache directory, fetches no
    URL with this cache file, and reports the entry as already cached. *)
Theorem failed_fetch_stays_cached (h : Host) (dep : string) (w : World) :
  nonblank dep = true -> cached w (dep_path h dep) = false ->
  CreateDenied h (dep_path h dep) = false ->
  (Get h (dep_url dep) = None \/
   exists res n, Get h (dep_url dep) = Some res /\ ReadErr res = Some n) ->
  exists w1 msg data,
    cache_dep h dep w = (w1, Fatal msg) /\
    files w1 !! dep_path h dep = Some (IFile data) /\
    (Get h (dep_url dep) = None -> data = "") /\
    (forall res n, Get h (dep_url dep) = Some res -> ReadErr res = Some n ->
                   data = String.substring 0 n (Body res)) /\
    forall h' w2,
      TempDir h' = TempDir h -> cached w2 (dep_path h dep) = true ->
      cache_dep h' dep w2 = (say (msg_cached (dep_path h dep)) w2, Ok tt) /\
      forall crossDeps w3 o,
        cacheDeps h' crossDeps w2 = (w3, o) ->
        exists evs, trace w3 = trace w2 ++ evs /\
                    fetches_of h' (dep_path h dep) evs = [] /\
                    cached w3 (dep_path h dep) = true.
Proof.
  intros Hnb Hc Hcreate Hfail.
  assert (Hlater : forall h' w2,
             TempDir h' = TempDir h -> cached w2 (dep_path h dep) = true ->
             cache_dep h' dep w2 = (say (msg_cached (dep_path h dep)) w2, Ok tt) /\
             forall crossDeps w3 o,
               cacheDeps h' crossDeps w2 = (w3, o) ->
               exists evs, trace w3 = trace w2 ++ evs /\
                           fetches_of h' (dep_path h dep) evs = [] /\
                           cached w3 (dep_path h dep) = true).
  { intros h' w2 Htmp Hthere. rewrite <- (dep_path_same h h' dep Htmp) in *. split.
    - now apply cache_dep_hit.
    - intros crossDeps w3 o Hrun. now apply (cacheDeps_present h' crossDeps w2 w3 o). }
  destruct (cache_dep_step h dep w) as (evs & fs & o & Hdep & Hstep).
  destruct Hstep as [Hnb' | Hnb' Hc' | Hnb' Hc' Hcr | Hnb' Hc' Hcr Hget
                    | res n Hnb' Hc' Hcr Hget Hrd | res Hnb' Hc' Hcr Hget Hrd];
    try congruence.
  - eexists _, _, "". refine (conj Hdep (conj _ (conj _ (conj _ Hlater)))).
    + apply lookup_insert_eq.
    + reflexivity.
    + intros res n Hres. congruence.
  - eexists _, _, (String.substring 0 n (Body res)).
    refine (conj Hdep (conj _ (conj _ (conj _ Hlater)))).
    + apply lookup_insert_eq.
    + congruence.
    + intros res' n' Hres Hn. congruence.
  - destruct Hfail as [Hnone | (res' & n & Hres & Hn)]; congruence.
Qed.

Lemma failed_fetch_stays_cached_witness :
  exists w1 msg,
    cache_dep flaky_host "http://x/a.tgz" empty_world = (w1, Fatal msg) /\
    files w1 !! "/tmp/xgo-cache/a.tgz" = Some (IFile "htt") /\
    cache_dep workspace_host "http://x/a.tgz" w1
    = (say (msg_cached "/tmp/xgo-cache/a.tgz") w1, Ok tt).
Proof.
  destruct (failed_fetch_stays_cached flaky_host "http://x/a.tgz" empty_world)
    as (w1 & msg & data & Hdep & Hfile & _ & Hdata & Hlater).
  - vm_compute. reflexivity.
  - vm_compute. reflexivity.
  - vm_compute. reflexivity.
  - right. exists {| Body := "http://x/a.tgz"; ReadErr := Some 3 |}, 3%nat.
    split; vm_compute; reflexivity.
  - exists w1, msg. split; [exact Hdep |].
    rewrite (Hdata {| Body := "http://x/a.tgz"; ReadErr := Some 3 |} 3%nat eq_refl eq_refl)
      in Hfile.
    split; [exact Hfile |].
    apply (Hlater workspace_host w1 eq_refl).
    unfold cached. change (dep_path flaky_host "http://x/a.tgz")
      with "/tmp/xgo-cache/a.tgz" in Hfile |- *.
    now rewrite Hfile.
Defined.

(* ===================================================================== *)
(** ** Further properties of the dependency cache *)
(* ===================================================================== *)

Section CacheFiles.

Variable h : Host.

Lemma dep_step_keeps (dep : string) (w : World) (evs : list event)
    (fs : gmap string inode) (o : outcome unit) (p : string) (x : inode) :
  dep_step h dep w evs fs o -> files w !! p = Some x -> fs !! p = Some x.
Proof.
  intros Hstep Hp.
  assert (Hne : cached w (dep_path h dep) = false -> dep_path h dep <> p).
  { intros Hc E. rewrite E in Hc. unfold cached in Hc. now rewrite Hp in Hc. }
  destruct Hstep as [Hnb | Hnb Hc | Hnb Hc Hcr | Hnb Hc Hcr Hget
                    | res n Hnb Hc Hcr Hget Hrd | res Hnb Hc Hcr Hget Hrd];
    rewrite ?lookup_insert_ne by auto; exact Hp.
Qed.

Lemma cache_deps_keeps (deps : list string) (w w' : World) (o : outcome unit)
    (p : string) (x : inode) :
  cache_deps h deps w = (w', o) -> files w !! p = Some x ->
  files w' !! p = Some x /\ exists evs, trace w' = trace w ++ evs.
Proof.
  revert w. induction deps as [|dep deps IH]; intros w Hrun Hp.
  - simpl in Hrun. injection Hrun as <- <-. split; [exact Hp |].
    exists []. now rewrite app_nil_r.
  - simpl in Hrun.
    destruct (cache_dep_step h dep w) as (evs1 & fs1 & o1 & Hdep & Hstep).
    rewrite Hdep in Hrun.
    pose proof (dep_step_keeps dep w evs1 fs1 o1 p x Hstep Hp) as Hp1.
    destruct o1 as [[]| |].
    + destruct (IH _ Hrun Hp1) as [Hp' (evs2 & Htrace)]. split; [exact Hp' |].
      exists (evs1 ++ evs2). simpl in Htrace. now rewrite Htrace, app_assoc.
    + injection Hrun as <- <-. split; [exact Hp1 | now exists evs1].
    + injection Hrun as <- <-. split; [exact Hp1 | now exists evs1].
Qed.

Lemma mkdir_all_keeps_value (rooted : bool) (stack : list string)
    (fs fs' : gmap string inode) (p : string) (x : inode) :
  mkdir_all h rooted stack fs = Some fs' -> fs !! p = Some x -> fs' !! p = Some x.
Proof.
  revert fs'. induction stack as [|e below IH]; intros fs' Hmk Hp; simpl in Hmk.
  - now injection Hmk as <-.
  - destruct (fs !! Filepath.render rooted (e :: below)) as [[|data]|] eqn:Hthere.
    + now injection Hmk as <-.
    + discriminate.
    + destruct (mkdir_all h rooted below fs) as [fs0|]; [| discriminate].
      destruct (MkdirDenied h _); [discriminate |]. injection Hmk as <-.
      rewrite lookup_insert_ne; [now apply IH | congruence].
Qed.

End CacheFiles.

(** The cache only grows: a path that [os.Stat] finds before the
    dependencies are cached is found afterwards, with what it held, and
    what was printed and fetched before stays in front of what is added,
    however the caching ends. *)
Theorem cache_never_overwrites (h : Host) (crossDeps : string) (w w' : World)
    (o : outcome unit) (p : string) (x : inode) :
  cacheDeps h crossDeps w = (w', o) -> files w !! p = Some x ->
  files w' !! p = Some x /\ exists evs, trace w' = trace w ++ evs.
Proof.
  unfold cacheDeps, MkdirAll. intros Hrun Hp.
  destruct (crossDeps =? "")%string.
  - injection Hrun as <- <-. split; [exact Hp |]. exists []. now rewrite app_nil_r.
  - destruct (mkdir_all h _ _ (files w)) as [fs|] eqn:Hmk.
    + pose proof (mkdir_all_keeps_value h _ _ _ _ p x Hmk Hp) as Hp0.
      exact (cache_deps_keeps h _ _ _ _ p x Hrun Hp0).
    + injection Hrun as <- <-. split; [exact Hp |]. exists []. now rewrite app_nil_r.
Qed.

Lemma cache_never_overwrites_witness :
  files (fst (cacheDeps flaky_host "http://x/a.tgz http://x/b.tgz" stocked_world))
    !! "/tmp/xgo-cache/a.tgz" = Some (IFile "old").
Proof.
  refine (proj1 (cache_never_overwrites flaky_host "http://x/a.tgz http://x/b.tgz"
                   stocked_world _
                   (snd (cacheDeps flaky_host "http://x/a.tgz http://x/b.tgz" stocked_world))
                   "/tmp/xgo-cache/a.tgz" (IFile "old") _ _)).
  - now destruct (cacheDeps flaky_host "http://x/a.tgz http://x/b.tgz" stocked_world).
  - vm_compute. reflexivity.
Defined.

(** In a run of the loop that does not fail, a cache file that was
    missing holds the body of the response to the first entry of the
    list that is cached in this file, whole. *)
Theorem cache_miss_stores_body (h : Host) (deps : list string) (w w' : World)
    (dep : string) :
  cache_deps h deps w = (w', Ok tt) ->
  In dep deps -> nonblank dep = true -> cached w (dep_path h dep) = false ->
  exists before first after res,
    deps = before ++ first :: after /\
    nonblank first = true /\ dep_path h first = dep_path h dep /\
    (forall d, In d before -> nonblank d = true -> dep_path h d <> dep_path h dep) /\
    Get h (dep_url first) = Some res /\ ReadErr res = None /\
    files w' !! dep_path h dep = Some (IFile (Body res)).
Proof.
  revert w. induction deps as [|d deps IH]; intros w Hrun Hin Hnb Hc; [contradiction |].
  simpl in Hrun.
  destruct (cache_dep_step h d w) as (evs1 & fs1 & o1 & Hdep & Hstep).
  rewrite Hdep in Hrun. destruct o1 as [[]| |]; try discriminate.
  destruct (nonblank d && (dep_path h d =? dep_path h dep)%string) eqn:Hhere.
  - apply andb_true_iff in Hhere as [Hnbd Hsame]. apply String.eqb_eq in Hsame.
    remember (Ok tt) as o eqn:Ho.
    destruct Hstep as [Hnb' | Hnb' Hc' | Hnb' Hc' Hcr | Hnb' Hc' Hcr Hget
                      | res n Hnb' Hc' Hcr Hget Hrd | res Hnb' Hc' Hcr Hget Hrd];
      try discriminate; try congruence.
    exists [], d, deps, res.
    refine (conj eq_refl (conj Hnbd (conj Hsame (conj _ (conj Hget (conj Hrd _)))))).
    + intros d0 [].
    + refine (proj1 (cache_deps_keeps h deps _ w' (Ok tt) _ _ Hrun _)).
      simpl. rewrite <- Hsame. apply lookup_insert_eq.
  - assert (Hdep_ne : d <> dep).
    { intros ->. now rewrite Hnb, String.eqb_refl in Hhere. }
    destruct Hin as [-> | Hin]; [congruence |].
    destruct (step_counts h d w evs1 fs1 (trace w ++ evs1) (dep_path h dep))
      as (_ & _ & Hc1); [subst; exact Hstep |].
    rewrite Hhere, Hc in Hc1.
    destruct (IH _ Hrun Hin Hnb Hc1)
      as (before & first & after & res & -> & Hnbf & Hsame & Hfirst & Hget & Hrd & Hfile).
    exists (d :: before), first, after, res.
    refine (conj eq_refl (conj Hnbf (conj Hsame (conj _ (conj Hget (conj Hrd Hfile)))))).
    intros d0 [<- | Hin0] Hnb0; [| now apply Hfirst].
    intros Heq. rewrite Hnb0, Heq, String.eqb_refl in Hhere. discriminate.
Qed.

Lemma cache_miss_stores_body_witness :
  exists res,
    Get workspace_host "http://y/a.tgz" = Some res /\
    files (fst (cache_deps workspace_host ["http://y/a.tgz"; "http://x/a.tgz"] empty_world))
      !! "/tmp/xgo-cache/a.tgz" = Some (IFile (Body res)).
Proof.
  destruct (cache_miss_stores_body workspace_host ["http://y/a.tgz"; "http://x/a.tgz"]
              empty_world
              (fst (cache_deps workspace_host ["http://y/a.tgz"; "http://x/a.tgz"]
                      empty_world))
              "http://x/a.tgz")
    as (before & first & after & res & Hsplit & _ & _ & Hfirst & Hget & _ & Hfile).
  - vm_compute. reflexivity.
  - simpl. tauto.
  - vm_compute. reflexivity.
  - vm_compute. reflexivity.
  - exists res. split; [| exact Hfile].
    destruct before as [|b before].
    + injection Hsplit as <- _. exact Hget.
    + injection Hsplit as <- _. exfalso.
      apply (Hfirst "http://y/a.tgz"); [now left | vm_compute; reflexivity ..].
Defined.

Section CacheDirectory.

(** The elements of a clean path can be read back from it. *)
Lemma clean_elems_render (rooted : bool) (stack : list string) :
  stack_ok rooted stack = true -> stack <> [] ->
  String.prefix "/" (Filepath.render rooted stack) = rooted /\
  Filepath.clean_elems rooted
    (Strings.Split (Filepath.render rooted stack) Filepath.Separator) = stack.
Proof.
  intros Hs Hne.
  pose proof (render_rooted rooted stack "" Hs Hne) as Hp.
  rewrite append_nil_r in Hp. split; [exact Hp |].
  unfold Filepath.clean_elems.
  rewrite (Split_render rooted stack Hs Hne), fold_left_app.
  replace (fold_left (Filepath.clean_step rooted) (if rooted then [""] else []) [])
    with (@nil string) by now destruct rooted.
  now apply clean_fold_rev.
Qed.

Lemma name_not_rooted (n rest : string) :
  name_ok n = true -> String.prefix "/" (n +:+ rest) = false.
Proof.
  intros Hn. apply name_ok_spec in Hn as (Hne & _ & _ & Hsep).
  destruct n as [|c n]; [congruence |].
  simpl in Hsep. apply orb_false_iff in Hsep as [Hc _].
  simpl String.append. now rewrite prefix_char, Ascii.eqb_sym.
Qed.

(** A directory joined with a name, as a clean path. *)
Lemma Join_dir_name (dir n : string) :
  name_ok n = true ->
  Filepath.Join [dir; n]
  = Filepath.render (String.prefix "/" dir)
      (n :: Filepath.clean_elems (String.prefix "/" dir)
              (Strings.Split dir Filepath.Separator)).
Proof.
  intros Hn. pose proof Hn as Hn'.
  apply name_ok_spec in Hn' as (Hne & _ & _ & Hsep).
  destruct dir as [|c g].
  - unfold Filepath.Join. simpl List.filter.
    apply String.eqb_neq in Hne. rewrite Hne. simpl negb. cbv iota.
    simpl String.concat. unfold Filepath.Clean.
    pose proof (name_not_rooted n "" Hn) as Hp. rewrite append_nil_r in Hp.
    rewrite Hp. unfold Filepath.clean_elems.
    rewrite (Split_none n Filepath.Separator Hsep). simpl fold_left.
    now rewrite clean_step_name.
  - set (gp := String c g).
    rewrite Join_not_empty;
      [| discriminate | repeat constructor; (discriminate || assumption)].
    rewrite concat_two. unfold Filepath.Clean. rewrite append_single.
    assert (Hp : String.prefix "/" (gp +:+ String "/" n) = String.prefix "/" gp).
    { unfold gp. simpl String.append. now rewrite !prefix_char. }
    rewrite Hp. unfold Filepath.clean_elems.
    change (String "/" n) with (String Filepath.Separator n).
    rewrite Split_append, fold_left_app, (Split_none n Filepath.Separator Hsep).
    simpl fold_left. now rewrite clean_step_name.
Qed.

Variable h : Host.

(** The cache directory is a clean path that ends in [xgo-cache]. *)
Lemma depsCache_clean :
  let rooted := String.prefix "/" (TempDir h) in
  let stack := "xgo-cache"
               :: Filepath.clean_elems rooted (Strings.Split (TempDir h) Filepath.Separator) in
  depsCache h = Filepath.render rooted stack /\ stack_ok rooted stack = true.
Proof.
  intros rooted stack. split.
  - unfold depsCache. now rewrite Join_dir_name.
  - unfold stack. rewrite stack_ok_unfold. now rewrite clean_elems_ok.
Qed.

Lemma mkdir_all_made (h' : Host) (rooted : bool) (stack : list string)
    (fs fs' : gmap string inode) :
  stack <> [] -> mkdir_all h' rooted stack fs = Some fs' ->
  fs' !! Filepath.render rooted stack = Some IDir.
Proof.
  destruct stack as [|e below]; [congruence |]. intros _ Hmk. simpl in Hmk.
  destruct (fs !! Filepath.render rooted (e :: below)) as [[|data]|] eqn:Hthere.
  - now injection Hmk as <-.
  - discriminate.
  - destruct (mkdir_all h' rooted below fs) as [fs0|]; [| discriminate].
    destruct (MkdirDenied h' _); [discriminate |]. injection Hmk as <-.
    apply lookup_insert_eq.
Qed.

Lemma MkdirAll_depsCache (h' : Host) (w : World) :
  MkdirAll h' (depsCache h) w
  = match mkdir_all h' (String.prefix "/" (TempDir h))
            ("xgo-cache" :: Filepath.clean_elems (String.prefix "/" (TempDir h))
                              (Strings.Split (TempDir h) Filepath.Separator))
            (files w) with
    | Some fs => Some {| files := fs; trace := trace w |}
    | None => None
    end.
Proof.
  destruct depsCache_clean as [Hdc Hs]. unfold MkdirAll. rewrite Hdc.
  destruct (clean_elems_render _ _ Hs ltac:(discriminate)) as [-> ->]. reflexivity.
Qed.

End CacheDirectory.

(** When [os.MkdirAll] succeeds on the cache directory, the directory is
    there afterwards and nothing is printed; making it again then
    succeeds and changes nothing, whatever the host would refuse.  A
    regular file at the path of the cache directory makes it fail. *)
Theorem cache_dir_created (h : Host) (w : World) :
  (forall w', MkdirAll h (depsCache h) w = Some w' ->
     files w' !! depsCache h = Some IDir /\ trace w' = trace w /\
     forall h', TempDir h' = TempDir h -> MkdirAll h' (depsCache h') w' = Some w') /\
  (forall data crossDeps,
     files w !! depsCache h = Some (IFile data) -> crossDeps <> "" ->
     MkdirAll h (depsCache h) w = None /\
     cacheDeps h crossDeps w = (w, Fatal "Failed to create dependency cache")).
Proof.
  destruct (depsCache_clean h) as [Hdc Hs]. split.
  - intros w' Hmk. rewrite MkdirAll_depsCache in Hmk.
    destruct (mkdir_all h _ _ (files w)) as [fs|] eqn:Hall; [| discriminate].
    injection Hmk as <-. apply mkdir_all_made in Hall; [| discriminate].
    rewrite <- Hdc in Hall. split; [exact Hall |]. split; [reflexivity |].
    intros h' Htmp.
    assert (Hsame : depsCache h' = depsCache h) by (unfold depsCache; now rewrite Htmp).
    rewrite Hsame, MkdirAll_depsCache. cbn [mkdir_all files trace].
    rewrite <- Hdc. simpl files. now rewrite Hall.
  - intros data crossDeps Hfile Hne.
    assert (Hnone : MkdirAll h (depsCache h) w = None).
    { rewrite MkdirAll_depsCache. cbn [mkdir_all]. rewrite <- Hdc. now rewrite Hfile. }
    split; [exact Hnone |]. unfold cacheDeps.
    apply String.eqb_neq in Hne. now rewrite Hne, Hnone.
Qed.

Lemma cache_dir_created_witness :
  exists w',
    MkdirAll workspace_host (depsCache workspace_host) empty_world = Some w' /\
    files w' !! depsCache workspace_host = Some IDir /\
    MkdirAll workspace_host (depsCache workspace_host) w' = Some w'.
Proof.
  destruct (cache_dir_created workspace_host empty_world) as [Hmade _].
  destruct (MkdirAll workspace_host (depsCache workspace_host) empty_world)
    as [w'|] eqn:Hmk; [| vm_compute in Hmk; discriminate].
  destruct (Hmade w' eq_refl) as (Hdir & _ & Hagain).
  exists w'. split; [reflexivity |]. split; [exact Hdir |].
  now apply Hagain.
Defined.

Section CacheLocation.

Lemma strip_trailing_last (fields : list string) :
  Filepath.strip_trailing fields <> [] ->
  List.last (Filepath.strip_trailing fields) "" <> "" /\
  In (List.last (Filepath.strip_trailing fields) "") fields.
Proof.
  induction fields as [|f fields IH]; [simpl; congruence |].
  simpl. destruct (Filepath.strip_trailing fields) as [|r rest].
  - destruct (String.eqb_spec f ""); [congruence |]. intros _. simpl. auto.
  - intros _. destruct (IH ltac:(discriminate)) as [Hne Hin].
    change (List.last (f :: r :: rest) "") with (List.last (r :: rest) "").
    auto.
Qed.

(** The last element of a path is [.], the separator, [..] or a name. *)
Lemma Base_cases (path : string) :
  name_ok (Filepath.Base path) = true \/ Filepath.Base path = "."
  \/ Filepath.Base path = "/" \/ Filepath.Base path = "..".
Proof.
  unfold Filepath.Base. destruct (String.eqb_spec path ""); [auto |].
  destruct (Filepath.strip_trailing (Strings.Split path Filepath.Separator))
    as [|r rest] eqn:Hst; [auto |].
  destruct (strip_trailing_last (Strings.Split path Filepath.Separator))
    as [Hne Hin]; [rewrite Hst; discriminate |].
  rewrite Hst in Hne, Hin.
  pose proof (Split_fields path Filepath.Separator) as Hall.
  rewrite List.Forall_forall in Hall. specialize (Hall _ Hin).
  set (b := List.last (r :: rest) "") in *.
  destruct (String.eqb_spec b "."); [auto |].
  destruct (String.eqb_spec b ".."); [auto |].
  left. unfold name_ok. rewrite Hall.
  apply String.eqb_neq in Hne. rewrite Hne.
  destruct (String.eqb_spec b "."); [congruence |].
  destruct (String.eqb_spec b ".."); [congruence | reflexivity].
Qed.

Variable h : Host.

(** The path of the cache file, by the last element of the URL. *)
Lemma cache_path_cases (url : string) :
  (name_ok (Filepath.Base url) = true ->
   cache_path h url = depsCache h +:+ "/" +:+ Filepath.Base url) /\
  (Filepath.Base url = "." \/ Filepath.Base url = "/" -> cache_path h url = depsCache h) /\
  (Filepath.Base url = ".." -> cache_path h url = Filepath.Clean (TempDir h)).
Proof.
  destruct (depsCache_clean h) as [Hdc Hs]. unfold cache_path.
  set (rooted := String.prefix "/" (TempDir h)) in *.
  set (below := Filepath.clean_elems rooted (Strings.Split (TempDir h) Filepath.Separator)) in *.
  assert (Hne : "xgo-cache" :: below <> []) by discriminate.
  assert (Hjoin : forall b, b <> "" ->
            Filepath.Join [depsCache h; b]
            = Filepath.render rooted
                (fold_left (Filepath.clean_step rooted)
                   (Strings.Split b Filepath.Separator) ("xgo-cache" :: below))).
  { intros b Hb. rewrite Join_not_empty.
    - rewrite concat_two, Hdc. now apply Clean_extend.
    - discriminate.
    - repeat constructor; [| exact Hb]. rewrite Hdc. apply render_not_empty. }
  split; [| split].
  - intros Hn. rewrite Hdc, Join_name by assumption.
    apply render_cons; [| exact Hne].
    rewrite stack_ok_unfold, Hn. exact Hs.
  - intros [-> | ->]; (rewrite Hjoin by discriminate); now rewrite Hdc.
  - intros ->. rewrite Hjoin by discriminate. reflexivity.
Qed.

End CacheLocation.

(** The file of the cache that holds a dependency is named by the last
    element of its URL and lies in the cache directory.  A URL whose
    last element is [.] or that is made of separators is given the
    cache directory itself, and one whose last element is [..] the
    directory that holds the cache. *)
Theorem cache_file_location (h : Host) (url : string) :
  let base := Filepath.Base url in
  if name_ok base then cache_path h url = depsCache h +:+ "/" +:+ base
  else if String.eqb base ".." then cache_path h url = Filepath.Clean (TempDir h)
  else (base = "." \/ base = "/") /\ cache_path h url = depsCache h.
Proof.
  intros base. destruct (cache_path_cases h url) as (Hname & Hdir & Hup).
  fold base in Hname, Hdir, Hup.
  destruct (name_ok base) eqn:Hn; [now apply Hname |].
  destruct (String.eqb_spec base ".."); [now apply Hup |].
  destruct (Base_cases url) as [H | [H | [H | H]]]; fold base in H;
    try congruence; auto.
Qed.

(** While the dependencies are cached, nothing is fetched for a URL
    whose cache file would be the cache directory: no request goes out
    for a URL whose last element is [.] or that is made of separators. *)
Theorem cache_dir_never_fetched (h : Host) (crossDeps : string) (w w' : World)
    (o : outcome unit) :
  cacheDeps h crossDeps w = (w', o) ->
  exists evs, trace w' = trace w ++ evs /\
    forall url, In (HttpGet url) evs ->
      Filepath.Base url <> "." /\ Filepath.Base url <> "/" /\ url <> "".
Proof.
  intros Hrun.
  assert (Hcut : forall evs,
            fetches_of h (depsCache h) evs = [] ->
            forall url, In (HttpGet url) evs ->
              Filepath.Base url <> "." /\ Filepath.Base url <> "/" /\ url <> "").
  { intros evs Hnone url Hin.
    assert (Hp : cache_path h url <> depsCache h).
    { intros E.
      assert (Hf : In (HttpGet url) (fetches_of h (depsCache h) evs)).
      { apply List.filter_In. split; [exact Hin |]. now apply String.eqb_eq. }
      rewrite Hnone in Hf. exact Hf. }
    destruct (cache_path_cases h url) as (_ & Hdir & _).
    split; [| split].
    - intros E. apply Hp, Hdir. now left.
    - intros E. apply Hp, Hdir. now right.
    - intros ->. apply Hp, Hdir. now left. }
  unfold cacheDeps in Hrun. destruct (String.eqb crossDeps "").
  - injection Hrun as <- <-. exists []. split; [now rewrite app_nil_r |].
    intros url [].
  - destruct (MkdirAll h (depsCache h) w) as [w1|] eqn:Hmk.
    + rewrite MkdirAll_depsCache in Hmk.
      destruct (mkdir_all h _ _ (files w)) as [fs|] eqn:Hall; [| discriminate].
      injection Hmk as <-. apply mkdir_all_made in Hall; [| discriminate].
      destruct (depsCache_clean h) as [Hdc _]. rewrite <- Hdc in Hall.
      destruct (present_never_fetched h _ _ _ _ (depsCache h) Hrun)
        as (evs & Htr & Hnone & _).
      { unfold cached. simpl files. now rewrite Hall. }
      exists evs. split; [exact Htr | now apply Hcut].
    + injection Hrun as <- <-. exists []. split; [now rewrite app_nil_r |].
      intros url [].
Qed.

Lemma cache_dir_never_fetched_witness :
  exists evs,
    trace (fst (cacheDeps workspace_host "http://x/. http://x/a.tgz" empty_world))
    = trace empty_world ++ evs /\
    forall url, In (HttpGet url) evs ->
      Filepath.Base url <> "." /\ Filepath.Base url <> "/" /\ url <> "".
Proof.
  apply (cache_dir_never_fetched workspace_host "http://x/. http://x/a.tgz" empty_world
           _ (snd (cacheDeps workspace_host "http://x/. http://x/a.tgz" empty_world))).
  now destruct (cacheDeps workspace_host "http://x/. http://x/a.tgz" empty_world).
Defined.

Section WhiteSpace.

Lemma strip_one_none (pats : list string) (c : ascii) (s : string) :
  existsb (starts c) pats = false -> Strings.strip_one pats (String c s) = None.
Proof.
  induction pats as [|p pats IH]; [reflexivity |]. simpl.
  intros H. apply orb_false_iff in H as [Hp Hrest].
  destruct p as [|c' p]; [discriminate |]. simpl in Hp.
  simpl. destruct (ascii_dec c' c) as [->|]; [now rewrite Ascii.eqb_refl in Hp |].
  now apply IH.
Qed.

Lemma strip_one_single (pats : list string) (c : ascii) (s : string) :
  single_at c pats = true -> Strings.strip_one pats (String c s) = Some s.
Proof.
  induction pats as [|p pats IH]; [discriminate |]. simpl single_at.
  intros H. apply orb_true_iff in H as [H | H].
  - apply String.eqb_eq in H as ->. simpl.
    destruct (ascii_dec c c); [| congruence]. now rewrite prefix_nil.
  - apply andb_true_iff in H as [Hp H]. apply negb_true_iff in Hp.
    destruct p as [|c' p]; [discriminate |]. simpl in Hp. simpl.
    destruct (ascii_dec c' c) as [->|]; [now rewrite Ascii.eqb_refl in Hp |].
    now apply IH.
Qed.

(** No white space of Unicode starts or ends with a printable byte. *)
Lemma graphic_kept (c : ascii) (s : string) :
  is_graphic c = true ->
  Strings.strip_one Strings.spaces (String c s) = None /\
  Strings.strip_one (map Strings.reverse Strings.spaces) (String c s) = None.
Proof.
  intros Hg. split; apply strip_one_none; revert Hg;
    destruct c as [[] [] [] [] [] [] [] []]; vm_compute; congruence.
Qed.

Lemma space_stripped (c : ascii) (s : string) :
  is_ascii_space c = true ->
  Strings.strip_one Strings.spaces (String c s) = Some s /\
  Strings.strip_one (map Strings.reverse Strings.spaces) (String c s) = Some s.
Proof.
  intros Hg. split; apply strip_one_single; revert Hg;
    destruct c as [[] [] [] [] [] [] [] []]; vm_compute; congruence.
Qed.

Lemma all_chars_append (p : ascii -> bool) (a b : string) :
  all_chars p (a +:+ b) = all_chars p a && all_chars p b.
Proof.
  induction a as [|c a IH]; [reflexivity |].
  simpl. now rewrite IH, andb_assoc.
Qed.

Lemma reverse_snoc (c : ascii) (s : string) :
  Strings.reverse (String c s) = Strings.reverse s +:+ String c "".
Proof.
  unfold Strings.reverse. simpl.
  generalize (rev (list_ascii_of_string s)). intros l.
  induction l as [|x l IH]; [reflexivity |]. simpl. now rewrite IH.
Qed.

Lemma reverse_append (a b : string) :
  Strings.reverse (a +:+ b) = Strings.reverse b +:+ Strings.reverse a.
Proof.
  induction a as [|c a IH].
  - simpl. change (Strings.reverse "") with "". now rewrite append_nil_r.
  - simpl String.append. now rewrite !reverse_snoc, IH, append_assoc.
Qed.

Lemma reverse_involutive (s : string) : Strings.reverse (Strings.reverse s) = s.
Proof.
  induction s as [|c s IH]; [reflexivity |].
  now rewrite reverse_snoc, reverse_append, IH.
Qed.

Lemma all_chars_reverse (p : ascii -> bool) (s : string) :
  all_chars p (Strings.reverse s) = all_chars p s.
Proof.
  induction s as [|c s IH]; [reflexivity |].
  rewrite reverse_snoc, all_chars_append, IH. simpl.
  now rewrite andb_true_r, andb_comm.
Qed.

Lemma length_reverse (s : string) :
  String.length (Strings.reverse s) = String.length s.
Proof.
  induction s as [|c s IH]; [reflexivity |].
  rewrite reverse_snoc, length_append, IH. simpl. lia.
Qed.

(** Trimming white space of ASCII before something that starts with a
    printable byte, or before nothing. *)
Lemma trim_left_spaces (pats : list string) (ws s : string) (fuel : nat) :
  (forall c r, is_ascii_space c = true -> Strings.strip_one pats (String c r) = Some r) ->
  Strings.strip_one pats s = None ->
  all_chars is_ascii_space ws = true ->
  (String.length ws <= fuel)%nat ->
  Strings.trim_left fuel pats (ws +:+ s) = s.
Proof.
  intros Hsp Hstop. revert fuel.
  induction ws as [|c ws IH]; intros fuel Hall Hfuel.
  - simpl String.append. destruct fuel; [reflexivity |]. simpl. now rewrite Hstop.
  - cbn [all_chars] in Hall. apply andb_true_iff in Hall as [Hc Hall].
    destruct fuel as [|fuel]; [simpl in Hfuel; lia |].
    simpl String.append. simpl Strings.trim_left. rewrite (Hsp c _ Hc).
    apply IH; [exact Hall | simpl in Hfuel; lia].
Qed.

(** [TrimSpace] removes the white space of ASCII around printable text. *)
Lemma TrimSpace_around (ws1 url ws2 : string) :
  all_chars is_ascii_space ws1 = true ->
  all_chars is_graphic url = true ->
  all_chars is_ascii_space ws2 = true ->
  Strings.TrimSpace (ws1 +:+ url +:+ ws2) = url.
Proof.
  intros H1 Hu H2.
  assert (Hleft : forall pats, pats = Strings.spaces \/ pats = map Strings.reverse Strings.spaces ->
            forall c r, is_ascii_space c = true ->
                        Strings.strip_one pats (String c r) = Some r).
  { intros pats [-> | ->] c r Hc;
      [exact (proj1 (space_stripped c r Hc)) | exact (proj2 (space_stripped c r Hc))]. }
  destruct url as [|c url].
  - simpl String.append. unfold Strings.TrimSpace, Strings.TrimLeftSpace.
    replace (ws1 +:+ ws2) with ((ws1 +:+ ws2) +:+ "") at 2 by apply append_nil_r.
    rewrite trim_left_spaces; auto.
    now rewrite all_chars_append, H1, H2.
  - unfold Strings.TrimSpace, Strings.TrimLeftSpace.
    rewrite trim_left_spaces; auto.
    + unfold Strings.TrimRightSpace. rewrite reverse_append.
      rewrite trim_left_spaces; auto.
      * apply reverse_involutive.
      * rewrite reverse_snoc.
        assert (Hrev : all_chars is_graphic (Strings.reverse url +:+ String c "") = true).
        { rewrite <- reverse_snoc, all_chars_reverse. exact Hu. }
        destruct (Strings.reverse url +:+ String c "") as [|d r] eqn:E.
        { destruct (Strings.reverse url); discriminate. }
        cbn [all_chars] in Hrev. apply andb_true_iff in Hrev as [Hd _].
        exact (proj2 (graphic_kept d r Hd)).
      * now rewrite all_chars_reverse.
      * rewrite length_reverse, length_append. lia.
    + cbn [all_chars] in Hu. apply andb_true_iff in Hu as [Hc _].
      simpl String.append. exact (proj1 (graphic_kept c _ Hc)).
    + rewrite length_append. lia.
Qed.

End WhiteSpace.

(** White space of ASCII around an entry of the dependency list is not
    part of the URL: the entry is handled like the text it surrounds,
    and an entry of white space only is passed over. *)
Theorem surrounding_space_ignored (h : Host) (ws1 url ws2 : string) (w : World) :
  all_chars is_ascii_space ws1 = true ->
  all_chars is_graphic url = true ->
  all_chars is_ascii_space ws2 = true ->
  cache_dep h (ws1 +:+ url +:+ ws2) w = cache_dep h url w /\
  cache_dep h (ws1 +:+ ws2) w = (w, Ok tt) /\
  (url <> "" -> nonblank (ws1 +:+ url +:+ ws2) = true /\
                dep_url (ws1 +:+ url +:+ ws2) = url).
Proof.
  intros H1 Hu H2.
  pose proof (TrimSpace_around ws1 url ws2 H1 Hu H2) as Hall.
  pose proof (TrimSpace_around "" url "" eq_refl Hu eq_refl) as Hurl.
  pose proof (TrimSpace_around ws1 "" ws2 H1 eq_refl H2) as Hws.
  simpl String.append in Hurl, Hws. rewrite append_nil_r in Hurl.
  split; [| split].
  - unfold cache_dep. now rewrite Hall, Hurl.
  - unfold cache_dep. now rewrite Hws.
  - intros Hne. unfold nonblank, dep_url. rewrite Hall. split; [| reflexivity].
    apply negb_true_iff. now apply String.eqb_neq.
Qed.

Lemma surrounding_space_ignored_witness :
  cache_dep workspace_host (nl +:+ "http://x/a.tgz" +:+ nl) empty_world
  = cache_dep workspace_host "http://x/a.tgz" empty_world.
Proof.
  apply (surrounding_space_ignored workspace_host nl "http://x/a.tgz" nl empty_world);
    reflexivity.
Defined.

(* ===================================================================== *)
(** ** Further properties of the command line *)
(* ===================================================================== *)

Section CommandLine.

(** Joining the fields of a split with another byte replaces the
    separators. *)
Lemma concat_Split_map (t : string) (sep by_ : ascii) :
  String.concat (String by_ "") (Strings.Split t sep)
  = map_chars (fun c => if Ascii.eqb c sep then by_ else c) t.
Proof.
  induction t as [|c t IH]; [reflexivity |].
  cbn [Strings.Split map_chars]. rewrite <- IH.
  pose proof (Split_not_nil t sep) as Hne.
  destruct (Ascii.eqb c sep).
  - destruct (Strings.Split t sep) as [|f fs]; [congruence |].
    rewrite concat_cons. reflexivity.
  - destruct (Strings.Split t sep) as [|f fs]; [congruence |].
    destruct fs as [|g fs]; [reflexivity |].
    rewrite !concat_cons. reflexivity.
Qed.

Lemma star_to_dot_selector (t : string) :
  star_to_dot (map_chars (fun c => if Ascii.eqb c "," then " "%char else c) t)
  = map_chars selector_char t.
Proof.
  induction t as [|c t IH]; [reflexivity |].
  cbn [map_chars star_to_dot]. rewrite IH. unfold selector_char.
  destruct (Ascii.eqb c ","); reflexivity.
Qed.

Lemma length_map_chars (f : ascii -> ascii) (s : string) :
  String.length (map_chars f s) = String.length s.
Proof. induction s as [|c s IH]; simpl; [reflexivity | now rewrite IH]. Qed.

(** A cleaned path is absolute when the path is. *)
Lemma Clean_rooted (path : string) :
  String.prefix "/" path = true -> String.prefix "/" (Filepath.Clean path) = true.
Proof.
  intros Hp. unfold Filepath.Clean. rewrite Hp. unfold Filepath.render.
  rewrite append_single. apply prefix_char.
Qed.

(** Cleaning a clean path changes nothing. *)
Lemma Clean_idempotent (path : string) :
  Filepath.Clean (Filepath.Clean path) = Filepath.Clean path.
Proof.
  unfold Filepath.Clean at 2 3.
  set (rooted := String.prefix "/" path).
  pose proof (clean_elems_ok rooted path) as Hs.
  destruct (Filepath.clean_elems rooted (Strings.Split path Filepath.Separator))
    as [|e below] eqn:Hst.
  - now destruct rooted.
  - now apply Clean_render.
Qed.

Lemma rooted_not_empty (s : string) : String.prefix "/" s = true -> s <> "".
Proof. now intros H ->. Qed.

Lemma rooted_append (a b : string) :
  String.prefix "/" a = true -> String.prefix "/" (a +:+ b) = true.
Proof.
  destruct a as [|c a]; [discriminate |]. simpl String.append.
  now rewrite !prefix_char.
Qed.

Variable h : Host.

(** [filepath.Abs] under an absolute working directory: an absolute,
    clean path. *)
Lemma Abs_absolute (wd path : string) :
  Getwd h = Some wd -> String.prefix "/" wd = true ->
  exists abs,
    Abs h path = Some abs /\ String.prefix "/" abs = true /\ Filepath.Clean abs = abs.
Proof.
  intros Hwd Hroot. unfold Abs. rewrite Hwd.
  destruct (String.prefix "/" path) eqn:Hp.
  - eexists. split; [reflexivity |]. split; [now apply Clean_rooted |].
    apply Clean_idempotent.
  - pose proof (rooted_not_empty wd Hroot) as Hne.
    destruct (String.eqb_spec path "") as [-> | Hpath].
    + change [wd; ""] with ([wd] ++ [""]). rewrite Join_empty_last.
      rewrite Join_not_empty; [| discriminate | now repeat constructor].
      simpl String.concat. eexists. split; [reflexivity |].
      split; [now apply Clean_rooted | apply Clean_idempotent].
    + rewrite Join_not_empty; [| discriminate | now repeat constructor].
      rewrite concat_two. eexists. split; [reflexivity |].
      split; [apply Clean_rooted; now apply rooted_append | apply Clean_idempotent].
Qed.

Lemma output_folder_cases (dest : string) :
  match Getwd h with
  | None => output_folder h dest = Fatal "Failed to retrieve the working directory"
  | Some wd =>
      String.prefix "/" wd = true ->
      exists folder,
        output_folder h dest = Ok folder /\ String.prefix "/" folder = true /\
        (dest = "" -> folder = wd) /\
        (dest <> "" -> Abs h dest = Some folder /\ Filepath.Clean folder = folder)
  end.
Proof.
  unfold output_folder. destruct (Getwd h) as [wd|] eqn:Hwd; [| reflexivity].
  intros Hroot. cbn [bind].
  destruct (String.eqb_spec dest "") as [-> | Hdest].
  - exists wd. split; [reflexivity |]. split; [exact Hroot |].
    split; [reflexivity | congruence].
  - destruct (Abs_absolute wd dest Hwd Hroot) as (abs & Habs & Hr & Hc).
    rewrite Habs. exists abs. split; [reflexivity |]. split; [exact Hr |].
    split; [congruence | auto].
Qed.

Lemma length_volumes (ls ms : list string) :
  length ls = length ms -> length (volumes ls ms) = (2 * length ls)%nat.
Proof.
  revert ms. induction ls as [|l ls IH]; intros [|m ms] Hlen; try discriminate.
  - reflexivity.
  - simpl in *. rewrite (IH ms) by lia. lia.
Qed.

Lemma lookup_volumes (ls ms : list string) (i : nat) (l m : string) :
  ls !! i = Some l -> ms !! i = Some m ->
  volumes ls ms !! (2 * i)%nat = Some "-v" /\
  volumes ls ms !! (2 * i + 1)%nat = Some (l +:+ ":" +:+ m +:+ ":ro").
Proof.
  revert ms i. induction ls as [|l0 ls IH]; intros [|m0 ms] [|i] Hl Hm;
    try discriminate.
  - injection Hl as ->. injection Hm as ->. split; reflexivity.
  - simpl in Hl, Hm. destruct (IH ms i Hl Hm) as [Hv Hro].
    replace (2 * S i)%nat with (S (S (2 * i))) by lia.
    replace (S (S (2 * i)) + 1)%nat with (S (S (2 * i + 1))) by lia.
    split; assumption.
Qed.

End CommandLine.

(** The value of [TARGETS], the 24th argument of [docker], is the value
    of the [-targets] flag byte by byte: every comma has become a space
    and every [*] a dot, and nothing else has changed, so that it is as
    long as the flag. *)
Theorem targets_bytewise (h : Host) (f : Flags) (repo : string) (args : list string) :
  main_args h f repo = Ok args ->
  args !! 23%nat = Some ("TARGETS=" +:+ map_chars selector_char (targets f)) /\
  String.length (map_chars selector_char (targets f)) = String.length (targets f).
Proof.
  intros Hargs. unfold main_args in Hargs.
  apply compile_args_cases in Hargs as (folder & r & m & _ & _ & ->).
  rewrite docker_args_shape. split; [| apply length_map_chars].
  unfold Strings.Join.
  rewrite Replace_star, (concat_Split_map (targets f) "," " "), star_to_dot_selector.
  reflexivity.
Qed.

Lemma targets_bytewise_witness :
  exists args,
    main_args workspace_host default_flags "github.com/u/mylib" = Ok args /\
    args !! 23%nat = Some "TARGETS=./.".
Proof.
  eexists. split; [vm_compute; reflexivity |].
  apply (targets_bytewise workspace_host default_flags "github.com/u/mylib").
  vm_compute. reflexivity.
Defined.

(** The folder that is mounted at [/build], in the fourth argument of
    [docker], is an absolute path whenever the working directory is: the
    working directory itself without [-dest], and otherwise the clean,
    absolute form of the destination.  Without a working directory
    nothing is assembled, also for an absolute destination. *)
Theorem build_folder_absolute (h : Host)
    (repo image remote branch pack deps dest prefix : string)
    (verbose steps race : bool) (targets : list string) :
  (Getwd h = None ->
   compile_args h repo image remote branch pack deps dest prefix
     verbose steps race targets
   = Fatal "Failed to retrieve the working directory") /\
  (forall wd args,
     Getwd h = Some wd -> String.prefix "/" wd = true ->
     compile_args h repo image remote branch pack deps dest prefix
       verbose steps race targets = Ok args ->
     exists folder,
       args !! 3%nat = Some (folder +:+ ":/build") /\
       String.prefix "/" folder = true /\
       (dest = "" -> folder = wd) /\
       (dest <> "" -> Abs h dest = Some folder /\ Filepath.Clean folder = folder)).
Proof.
  pose proof (output_folder_cases h dest) as Hout. split.
  - intros Hwd. rewrite Hwd in Hout. unfold compile_args. now rewrite Hout.
  - intros wd args Hwd Hroot Hargs. rewrite Hwd in Hout.
    destruct (Hout Hroot) as (folder & Hfolder & Hr & Hempty & Hdest).
    apply compile_args_cases in Hargs as (folder' & r & m & Hfolder' & _ & ->).
    rewrite Hfolder in Hfolder'. injection Hfolder' as <-.
    exists folder. rewrite docker_args_shape. auto.
Qed.

Lemma build_folder_absolute_witness :
  exists folder,
    docker_args workspace_host "/home/u/out" "github.com/u/mylib" "img" "" "" "" "" ""
      false false false ["*/*"] no_mounts !! 3%nat = Some (folder +:+ ":/build") /\
    String.prefix "/" folder = true.
Proof.
  destruct (build_folder_absolute workspace_host "github.com/u/mylib" "img" "" "" "" ""
              "../out" "" false false false ["*/*"]) as [_ H].
  destruct (H "/home/u/proj" _ eq_refl eq_refl eq_refl) as (folder & Hat & Hr & _).
  exists folder. split; [exact Hat | exact Hr].
Defined.

(** A build of a package that is not a path of the host looks at
    nothing of the host but its working directory and its temporary
    directory: with a working directory the command line is assembled,
    with 28 arguments and no volume but [/build] and the cache, whatever
    GOPATH and the file system are. *)
Theorem remote_build_ignores_host (h : Host)
    (repo image remote branch pack deps dest prefix : string)
    (verbose steps race : bool) (targets : list string) :
  is_local repo = false ->
  (forall gopath stat links tree import,
     compile_args (with_files h gopath stat links tree import)
       repo image remote branch pack deps dest prefix verbose steps race targets
     = compile_args h repo image remote branch pack deps dest prefix
         verbose steps race targets) /\
  (forall wd, Getwd h = Some wd ->
     exists folder,
       output_folder h dest = Ok folder /\
       compile_args h repo image remote branch pack deps dest prefix
         verbose steps race targets
       = Ok ([ "run"; "--rm";
               "-v"; folder +:+ ":/build";
               "-v"; depsCache h +:+ ":/deps-cache:ro";
               "-e"; "REPO_REMOTE=" +:+ remote;
               "-e"; "REPO_BRANCH=" +:+ branch;
               "-e"; "PACK=" +:+ pack;
               "-e"; "DEPS=" +:+ deps;
               "-e"; "OUT=" +:+ prefix;
               "-e"; "FLAG_V=" +:+ show_bool verbose;
               "-e"; "FLAG_X=" +:+ show_bool steps;
               "-e"; "FLAG_RACE=" +:+ show_bool race;
               "-e"; "TARGETS=" +:+ Strings.Replace (Strings.Join targets " ") "*" ".";
               "-e"; "EXT_GOPATH="; image; repo ])).
Proof.
  intros Hremote. split.
  - intros gopath stat links tree import.
    unfold compile_args, locate. rewrite Hremote. reflexivity.
  - intros wd Hwd.
    assert (Hfolder : exists folder, output_folder h dest = Ok folder).
    { unfold output_folder, Abs. rewrite Hwd. cbn [bind].
      destruct (String.eqb dest ""); [eauto |].
      destruct (String.prefix "/" dest); eauto. }
    destruct Hfolder as [folder Hfolder]. exists folder. split; [exact Hfolder |].
    unfold compile_args, locate. rewrite Hfolder, Hremote. reflexivity.
Qed.

Lemma remote_build_ignores_host_witness :
  compile_args (with_files workspace_host "/nonexistent" (fun _ => None)
                  (fun _ => None) (fun _ => Node None None) (fun _ => None))
    "github.com/u/mylib" "img" "" "" "" "" "" "" false false false ["*/*"]
  = compile_args workspace_host
      "github.com/u/mylib" "img" "" "" "" "" "" "" false false false ["*/*"].
Proof.
  apply (remote_build_ignores_host workspace_host "github.com/u/mylib" "img"
           "" "" "" "" "" "" false false false ["*/*"]).
  reflexivity.
Defined.

(** For a build of a path of the host, every mount of the planner is
    passed to [docker] as a read-only volume: after the 24 arguments
    that every build has, the mount at index [i] gives [-v] and
    [<host path>:<sandbox path>:ro], and four arguments follow the
    volumes. *)
Theorem mounts_passed_read_only (h : Host)
    (repo image remote branch pack deps dest prefix : string)
    (verbose steps race : bool) (targets args : list string) :
  is_local repo = true ->
  compile_args h repo image remote branch pack deps dest prefix
    verbose steps race targets = Ok args ->
  exists m,
    plan_mounts h = Ok m /\
    length args = (28 + 2 * length (locals m))%nat /\
    forall i l s,
      locals m !! i = Some l -> mounts m !! i = Some s ->
      args !! (24 + 2 * i)%nat = Some "-v" /\
      args !! (24 + 2 * i + 1)%nat = Some (l +:+ ":" +:+ s +:+ ":ro").
Proof.
  intros Hlocal Hargs.
  apply compile_args_cases in Hargs as (folder & r & m & _ & Hloc & ->).
  apply locate_cases in Hloc
    as [(Hl & _) | (_ & path & stat & _ & _ & _ & _ & Hplan)]; [congruence |].
  exists m. split; [exact Hplan |].
  destruct (plan_counted h m Hplan) as [Hlen _].
  rewrite docker_args_shape. split.
  - rewrite length_app. cbn [length]. rewrite length_app, length_volumes by congruence.
    cbn [length]. lia.
  - intros i l s Hl Hs.
    destruct (lookup_volumes (locals m) (mounts m) i l s Hl Hs) as [Hv Hro].
    set (fixed := [ "run"; "--rm"; "-v"; folder +:+ ":/build";
                    "-v"; depsCache h +:+ ":/deps-cache:ro";
                    "-e"; "REPO_REMOTE=" +:+ remote; "-e"; "REPO_BRANCH=" +:+ branch;
                    "-e"; "PACK=" +:+ pack; "-e"; "DEPS=" +:+ deps;
                    "-e"; "OUT=" +:+ prefix; "-e"; "FLAG_V=" +:+ show_bool verbose;
                    "-e"; "FLAG_X=" +:+ show_bool steps;
                    "-e"; "FLAG_RACE=" +:+ show_bool race ]).
    set (tail := ["-e"; "EXT_GOPATH=" +:+ Strings.Join (paths m) ":"; image; r]).
    set (target := "TARGETS=" +:+ Strings.Replace (Strings.Join targets " ") "*" ".").
    change (fixed ++ "-e" :: target :: (volumes (locals m) (mounts m) ++ tail))
      with ((fixed ++ ["-e"; target]) ++ (volumes (locals m) (mounts m) ++ tail)).
    assert (Hat : forall k x, volumes (locals m) (mounts m) !! k = Some x ->
              ((fixed ++ ["-e"; target]) ++ (volumes (locals m) (mounts m) ++ tail))
                !! (24 + k)%nat = Some x).
    { intros k x Hk.
      rewrite (lookup_app_r (fixed ++ ["-e"; target])) by (simpl; lia).
      replace (24 + k - length (fixed ++ ["-e"; target]))%nat with k by (simpl; lia).
      now apply lookup_app_l_Some. }
    split.
    + now apply Hat.
    + rewrite <- Nat.add_assoc. now apply Hat.
Qed.

Lemma mounts_passed_read_only_witness :
  exists args,
    main_args workspace_host default_flags "/home/u/go/src/github.com/u/mylib" = Ok args /\
    args !! 24%nat = Some "-v" /\
    args !! 25%nat = Some "/opt/ext:/ext-go/1/src/github.com/u/ext:ro".
Proof.
  eexists. split; [vm_compute; reflexivity |].
  destruct (mounts_passed_read_only workspace_host "/home/u/go/src/github.com/u/mylib"
              "karalabe/xgo-latest" "" "" "" "" "" "" false false false ["*/*"] _
              eq_refl ltac:(vm_compute; reflexivity)) as (m & Hplan & _ & Hat).
  vm_compute in Hplan. injection Hplan as <-.
  exact (Hat 0%nat "/opt/ext" "/ext-go/1/src/github.com/u/ext" eq_refl eq_refl).
Defined.

(* ===================================================================== *)
(** ** Further properties of the planner *)
(* ===================================================================== *)

Section PlannerMounts.

Variable h : Host.




End PlannerMounts.



(** The planner ends in a result or in a panic, never in [log.Fatalf],
    and it ends in a result exactly when [os.Lstat] succeeds on every
    entry that the walks meet: directories that cannot be read, links
    that do not resolve and links to files do not stop it. *)
Theorem planner_completes_iff_lstat (h : Host) :
  (host_seen_all h = true <-> exists m, plan_mounts h = Ok m) /\
  (host_seen_all h = false <-> plan_mounts h = Panic) /\
  forall msg, plan_mounts h <> Fatal msg.
Proof.
  pose proof (plan_outcome h) as Hout.
  destruct (host_seen_all h).
  - destruct Hout as [m Hm]. rewrite Hm. split; [| split].
    + split; eauto.
    + split; discriminate.
    + discriminate.
  - rewrite Hout. split; [| split].
    + split; [discriminate | intros [m Hm]; discriminate].
    + split; reflexivity.
    + discriminate.
Qed.

(* ===================================================================== *)
(** ** Further properties of [main] *)
(* ===================================================================== *)

Section MainFacts.

Lemma prefix_split (a s : string) :
  String.prefix a s = true -> exists b, s = a +:+ b.
Proof.
  revert s. induction a as [|c a IH]; intros s H; [now exists s |].
  destruct s as [|d s]; [discriminate |]. simpl in H.
  destruct (ascii_dec c d) as [-> |]; [| discriminate].
  destruct (IH s H) as [b ->]. now exists b.
Qed.

(** [Contains] finds the text wherever it is. *)
Lemma Contains_spec (s sub : string) :
  Strings.Contains s sub = true <-> exists a b, s = a +:+ sub +:+ b.
Proof.
  split.
  - induction s as [|c s IH]; cbn [Strings.Contains]; intros H;
      apply orb_true_iff in H as [H | H]; try discriminate.
    + apply prefix_split in H as [b ->]. now exists "", b.
    + apply prefix_split in H as [b ->]. now exists "", b.
    + destruct (IH H) as (a & b & ->). now exists (String c a), b.
  - intros (a & b & ->). induction a as [|c a IH].
    + simpl String.append.
      destruct (sub +:+ b) eqn:E; cbn [Strings.Contains]; rewrite <- E;
        now rewrite prefix_append.
    + simpl String.append. cbn [Strings.Contains]. rewrite IH. apply orb_true_r.
Qed.

Variable h : Host.

(** [compile], by what [compile_args] arrives at. *)
Lemma compile_cases (repo image remote branch pack deps dest prefix : string)
    (verbose steps race : bool) (targets : list string) (w : World) :
  match compile_args h repo image remote branch pack deps dest prefix
          verbose steps race targets with
  | Ok args =>
      exists r,
        compile h repo image remote branch pack deps dest prefix
          verbose steps race targets w
        = (say ("Cross compiling " +:+ r +:+ "..." +:+ nl) w, Ok (DockerRun h args))
        /\ List.last args "" = r
  | Fatal msg =>
      compile h repo image remote branch pack deps dest prefix
        verbose steps race targets w = (w, Fatal msg)
  | Panic =>
      compile h repo image remote branch pack deps dest prefix
        verbose steps race targets w = (w, Panic)
  end.
Proof.
  unfold compile_args, compile.
  destruct (output_folder h dest) as [folder| |]; cbn [bind]; try reflexivity.
  destruct (locate h repo) as [[r m]| |]; cbn [bind fst snd]; try reflexivity.
  exists r. split; [reflexivity |].
  rewrite docker_args_shape, split_tail.
  match goal with
  | |- List.last (?a ++ [?x; ?y; ?z; r]) "" = r =>
      change (a ++ [x; y; z; r]) with (a ++ ([x; y; z] ++ [r]));
      rewrite (app_assoc a); apply last_last
  end.
Qed.

End MainFacts.

(** The docker installation is checked before the arguments: a run
    without exactly one package ends in the usage message when
    [docker version] succeeds, and in the failure of the check when it
    does not; either way no image is looked for, nothing is fetched and
    no file is changed. *)
Theorem usage_after_docker_check (h : Host) (f : Flags) (args : list string) (w : World) :
  length args <> 1%nat ->
  main h f args w
  = if DockerVersion h
    then ({| files := files w;
             trace := trace w ++ [Stdout ("Checking docker installation..." +:+ nl);
                                  Stdout nl] |},
          Fatal "Usage: xgo [options] <go import path>")
    else ({| files := files w;
             trace := trace w ++ [Stdout ("Checking docker installation..." +:+ nl)] |},
          Fatal "Failed to check docker installation").
Proof.
  intros Hlen. unfold main, say. cbn [files trace].
  destruct (DockerVersion h); cbn [negb]; [| reflexivity].
  rewrite <- app_assoc.
  destruct args as [|repo [|other rest]]; [reflexivity | now elim Hlen | reflexivity].
Qed.

Lemma usage_after_docker_check_witness :
  snd (main workspace_host default_flags [] empty_world)
  = Fatal "Usage: xgo [options] <go import path>".
Proof.
  rewrite (usage_after_docker_check workspace_host default_flags [] empty_world);
    [reflexivity | discriminate].
Defined.



(** The image counts as available when its name occurs anywhere in the
    output of [docker images], also inside a longer name: the run then
    never calls [docker pull].  When the name does not occur and the
    pull fails, the run ends there, with the files as they were. *)
Theorem image_found_by_substring (h : Host) (f : Flags) (w : World) :
  (forall out, Strings.Contains out (select_image f) = true
               <-> exists before after, out = before +:+ select_image f +:+ after) /\
  (forall before after pull args,
     DockerImages h = Some (before +:+ select_image f +:+ after) ->
     main (with_pull h pull) f args w = main h f args w) /\
  (forall out repo,
     DockerVersion h = true -> DockerImages h = Some out ->
     Strings.Contains out (select_image f) = false ->
     DockerPull h (select_image f) = false ->
     exists w', main h f [repo] w
                = (w', Fatal "Failed to pull docker image from the registry") /\
                files w' = files w).
Proof.
  split; [| split].
  - intros out. apply Contains_spec.
  - intros before after pull args Himg.
    assert (Hfound : Strings.Contains (before +:+ select_image f +:+ after)
                       (select_image f) = true)
      by (apply Contains_spec; eauto).
    unfold main. cbn [with_pull DockerVersion DockerImages DockerPull].
    rewrite Himg, Hfound. cbn [negb andb]. reflexivity.
  - intros out repo Hver Himg Hnot Hpull. unfold main.
    rewrite Hver, Himg, Hnot, Hpull. cbn [negb andb]. eexists. split; reflexivity.
Qed.

Lemma image_found_by_substring_witness :
  main (with_pull workspace_host (fun _ => false)) default_flags
    ["github.com/u/mylib"] empty_world
  = main workspace_host default_flags ["github.com/u/mylib"] empty_world.
Proof.
  apply (proj1 (proj2 (image_found_by_substring workspace_host default_flags empty_world))
           "" "" (fun _ => false) ["github.com/u/mylib"]).
  reflexivity.
Defined.

Section Writes.

Variable h : Host.







End Writes.



(** The release of [-go] has no effect at all when [-image] names an
    image: the run is the same for every release. *)
Theorem image_overrides_go (h : Host) (f : Flags) (v : string) (args : list string)
    (w : World) :
  dockerImage f <> "" ->
  select_image f = dockerImage f /\
  main h (with_go f v) args w = main h f args w.
Proof.
  intros Himage.
  assert (Hsel : forall g, dockerImage g = dockerImage f -> select_image g = dockerImage f).
  { intros g Hg. unfold select_image. rewrite Hg.
    apply String.eqb_neq in Himage. now rewrite Himage. }
  split; [now apply Hsel |].
  unfold main. rewrite (Hsel (with_go f v) eq_refl), (Hsel f eq_refl). reflexivity.
Qed.

Lemma image_overrides_go_witness :
  main workspace_host (with_go pinned_flags "1.3") ["github.com/u/mylib"] empty_world
  = main workspace_host pinned_flags ["github.com/u/mylib"] empty_world.
Proof.
  apply (image_overrides_go workspace_host pinned_flags "1.3" ["github.com/u/mylib"]
           empty_world).
  discriminate.
Defined.

(** A build of a path of the host checks the path before it walks
    GOPATH.  With the output folder and the absolute path at hand: a
    path that [os.Stat] does not find, or that is no directory, ends in
    [Requested path invalid]; a directory without import path ends in
    [Failed to resolve import path]; only then does the planner run,
    and a directory entry on which [os.Lstat] fails is a panic.  In
    each case [compile] prints nothing and does not call [docker]. *)
Theorem local_build_checks_before_walk (h : Host)
    (repo image remote branch pack deps dest prefix : string)
    (verbose steps race : bool) (targets : list string)
    (folder path : string) (w : World) :
  is_local repo = true ->
  output_folder h dest = Ok folder -> Abs h repo = Some path ->
  let result := compile h repo image remote branch pack deps dest prefix
                  verbose steps race targets w in
  (Stat h path = None \/ (exists stat, Stat h path = Some stat /\ IsDir stat = false) ->
   result = (w, Fatal "Requested path invalid")) /\
  (forall stat, Stat h path = Some stat -> IsDir stat = true ->
     (ImportDir h path = None -> result = (w, Fatal "Failed to resolve import path")) /\
     (forall importPath, ImportDir h path = Some importPath ->
        host_seen_all h = false -> result = (w, Panic))).
Proof.
  intros Hlocal Hfolder Habs result.
  pose proof (compile_cases h repo image remote branch pack deps dest prefix
                verbose steps race targets w) as Hc.
  unfold compile_args, locate in Hc. rewrite Hfolder, Hlocal, Habs in Hc.
  cbn [bind] in Hc. fold result in Hc. split.
  - intros [Hnone | (stat & Hstat & Hdir)].
    + now rewrite Hnone in Hc.
    + now rewrite Hstat, Hdir in Hc.
  - intros stat Hstat Hdir. rewrite Hstat, Hdir in Hc. cbn [bind] in Hc. split.
    + intros Himp. now rewrite Himp in Hc.
    + intros importPath Himp Hseen. rewrite Himp in Hc. cbn [bind] in Hc.
      pose proof (plan_outcome h) as Hplan. rewrite Hseen in Hplan.
      now rewrite Hplan in Hc.
Qed.

Lemma local_build_checks_before_walk_witness :
  compile missing_src_host "/home/u/go/src/github.com/u/mylib" "img" "" "" "" "" "" ""
    false false false ["*/*"] empty_world
  = (empty_world, Panic).
Proof.
  destruct (local_build_checks_before_walk missing_src_host
              "/home/u/go/src/github.com/u/mylib" "img" "" "" "" "" "" ""
              false false false ["*/*"] "/home/u/proj"
              "/home/u/go/src/github.com/u/mylib" empty_world
              eq_refl eq_refl eq_refl) as [_ H].
  destruct (H dir_info eq_refl eq_refl) as [_ Hpanic].
  apply (Hpanic "github.com/u/mylib"); reflexivity.
Defined.



Section Announcements.

Lemma announced_app_bounded (n : nat) (a b : list event) :
  (length a <= n)%nat -> announced a = true -> announced b = true ->
  announced (a ++ b) = true.
Proof.
  revert a. induction n as [|n IH]; intros a Hlen Ha Hb.
  - destruct a; [exact Hb | simpl in Hlen; lia].
  - destruct a as [|[text | url] a]; [exact Hb | | discriminate].
    destruct a as [|[text' | url] a].
    + destruct b as [|[text' | url] b]; [reflexivity | exact Hb | discriminate].
    + change (announced (Stdout text' :: a) = true) in Ha.
      change (announced ((Stdout text' :: a) ++ b) = true).
      apply IH; [simpl in *; lia | exact Ha | exact Hb].
    + cbn [announced] in Ha. apply andb_true_iff in Ha as [Ht Ha].
      cbn [app announced]. rewrite Ht. cbn [andb].
      apply IH; [simpl in *; lia | exact Ha | exact Hb].
Qed.

Lemma announced_app (a b : list event) :
  announced a = true -> announced b = true -> announced (a ++ b) = true.
Proof. apply (announced_app_bounded (length a)). lia. Qed.

Lemma announced_lookup_bounded (n : nat) (evs : list event) (i : nat) (url : string) :
  (length evs <= n)%nat -> announced evs = true -> evs !! i = Some (HttpGet url) ->
  exists j, i = S j /\ evs !! j = Some (Stdout (msg_downloading url)).
Proof.
  revert evs i. induction n as [|n IH]; intros evs i Hlen Ha Hi.
  - destruct evs; [discriminate | simpl in Hlen; lia].
  - destruct evs as [|[text | url0] evs]; [discriminate | | discriminate].
    destruct i as [|i]; [discriminate |]. simpl in Hi.
    destruct evs as [|[text' | url1] evs]; [discriminate | |].
    + change (announced (Stdout text' :: evs) = true) in Ha.
      destruct (IH (Stdout text' :: evs) i ltac:(simpl in *; lia) Ha Hi) as (j & -> & Hj).
      exists (S j). split; [reflexivity | exact Hj].
    + cbn [announced] in Ha. apply andb_true_iff in Ha as [Ht Ha].
      apply String.eqb_eq in Ht. subst text.
      destruct i as [|i].
      * injection Hi as ->. exists 0%nat. split; reflexivity.
      * simpl in Hi.
        destruct (IH evs i ltac:(simpl in *; lia) Ha Hi) as (j & -> & Hj).
        exists (S (S j)). split; [reflexivity | exact Hj].
Qed.

Variable h : Host.

Lemma dep_step_announced (dep : string) (w : World) (evs : list event)
    (fs : gmap string inode) (o : outcome unit) :
  dep_step h dep w evs fs o -> announced evs = true.
Proof.
  intros Hstep.
  destruct Hstep as [Hnb | Hnb Hc | Hnb Hc Hcr | Hnb Hc Hcr Hget
                    | res n Hnb Hc Hcr Hget Hrd | res Hnb Hc Hcr Hget Hrd];
    cbn [announced]; rewrite ?String.eqb_refl; reflexivity.
Qed.

Lemma cache_deps_announced (deps : list string) (w w' : World) (o : outcome unit) :
  cache_deps h deps w = (w', o) ->
  exists evs, trace w' = trace w ++ evs /\ announced evs = true.
Proof.
  revert w. induction deps as [|dep deps IH]; intros w Hrun.
  - simpl in Hrun. injection Hrun as <- <-. exists []. now rewrite app_nil_r.
  - simpl in Hrun.
    destruct (cache_dep_step h dep w) as (evs1 & fs1 & o1 & Hdep & Hstep).
    rewrite Hdep in Hrun. apply dep_step_announced in Hstep.
    destruct o1 as [[]| |].
    + apply IH in Hrun as (evs & Htr & Ha). simpl trace in Htr.
      exists (evs1 ++ evs). rewrite Htr, app_assoc.
      split; [reflexivity | now apply announced_app].
    + injection Hrun as <- <-. exists evs1. auto.
    + injection Hrun as <- <-. exists evs1. auto.
Qed.

End Announcements.

(** No dependency is fetched in silence: in the events that caching the
    dependencies adds, however it ends, every request comes right after
    the line [Downloading new dependency: <url>...] for its URL. *)
Theorem every_fetch_announced (h : Host) (crossDeps : string) (w w' : World)
    (o : outcome unit) :
  cacheDeps h crossDeps w = (w', o) ->
  exists evs, trace w' = trace w ++ evs /\
    forall i url, evs !! i = Some (HttpGet url) ->
      exists j, i = S j /\ evs !! j = Some (Stdout (msg_downloading url)).
Proof.
  intros Hrun.
  assert (Hevs : exists evs, trace w' = trace w ++ evs /\ announced evs = true).
  { unfold cacheDeps in Hrun. destruct (String.eqb crossDeps "").
    - injection Hrun as <- <-. exists []. now rewrite app_nil_r.
    - destruct (MkdirAll h (depsCache h) w) as [w1|] eqn:Hmk.
      + apply cache_deps_announced in Hrun as (evs & Htr & Ha).
        exists evs. split; [| exact Ha]. rewrite Htr.
        unfold MkdirAll in Hmk. destruct (mkdir_all h _ _ _); [| discriminate].
        now injection Hmk as <-.
      + injection Hrun as <- <-. exists []. now rewrite app_nil_r. }
  destruct Hevs as (evs & Htr & Ha). exists evs. split; [exact Htr |].
  intros i url. now apply (announced_lookup_bounded (length evs)).
Qed.

Lemma every_fetch_announced_witness :
  exists evs,
    trace (fst (cacheDeps flaky_host "http://x/a.tgz" empty_world))
    = trace empty_world ++ evs /\
    forall i url, evs !! i = Some (HttpGet url) ->
      exists j, i = S j /\ evs !! j = Some (Stdout (msg_downloading url)).
Proof.
  apply (every_fetch_announced flaky_host "http://x/a.tgz" empty_world _
           (snd (cacheDeps flaky_host "http://x/a.tgz" empty_world))).
  now destruct (cacheDeps flaky_host "http://x/a.tgz" empty_world).
Defined.
